(** * wavesong: the audio-synchronised renderer and the export loop of
    [src/App.tsx], embedded in Rocq.

    Conventions of the embedding.

    - JavaScript numbers are modelled by exact rationals [Q]; the values that
      are not finite (NaN, which the code produces by reading a typed array
      out of range or by dividing zero by zero, and the infinities) are
      collapsed into one extra value, [None] of type [number].  Rounding of
      IEEE doubles is not modelled.
    - A [Float32Array] of samples is a [list Q], a [Uint8Array] of spectrum
      magnitudes a [list Byte.byte].
    - The 2D canvas context is a record holding the attributes the code
      assigns and a display list of the primitives painted since the canvas
      was last cleared; this display list stands for the raster frame.
    - Code that mutates the context and may throw runs in the monad [Draw].
    - React state and refs of the component are the fields of [App]; the
      browser's callbacks (animation frames, recorder events, clicks) are
      explicit transitions on it. *)

From Stdlib Require Import ZArith QArith Qround Qminmax List String Bool Lia.
From Stdlib Require Import Ascii.
Import ListNotations.

Set Implicit Arguments.

(** ** JavaScript numbers *)

Module Num.

(** [Some q] is the finite number [q]; [None] is a non-finite one. *)
Definition number := option Q.

Definition fin (q : Q) : number := Some q.
Definition ofZ (z : Z) : number := Some (inject_Z z).

Definition lift2 (f : Q -> Q -> Q) (a b : number) : number :=
  match a, b with
  | Some x, Some y => Some (f x y)
  | _, _ => None
  end.

Definition add := lift2 Qplus.
Definition sub := lift2 Qminus.
Definition mul := lift2 Qmult.

Definition Qis_zero (q : Q) : bool := Qeq_bool q 0.

(** [a / b]: a zero divisor gives NaN or an infinity.  No call site
    divides by a non-finite value. *)
Definition div (a b : number) : number :=
  match a, b with
  | Some x, Some y => if Qis_zero y then None else Some (x / y)
  | _, _ => None
  end.

(** [Math.pow(a, 2)]. *)
Definition sq (a : number) : number := mul a a.


End Num.

Abbreviation number := Num.number.

Declare Scope js_scope.
Delimit Scope js_scope with js.
Infix "+" := Num.add : js_scope.
Infix "-" := Num.sub : js_scope.
Infix "*" := Num.mul : js_scope.
Infix "/" := Num.div : js_scope.

(** ** Types of [types.ts] *)

Inductive WaveformStyle :=
| Line
| GradientLine
| ReflectedLine
| Equalizer
| SymmetricBars
| BottomBars
| Circle
| Pulse.

Record ColorPreset := { name : string; colors : list string }.

Definition COLOR_PRESETS : list ColorPreset :=
  [ {| name := "Synthwave"; colors := ["#ec4899"; "#6d28d9"] |};
    {| name := "Ocean";     colors := ["#38bdf8"; "#34d399"] |};
    {| name := "Sunset";    colors := ["#f97316"; "#ec4899"] |};
    {| name := "Emerald";   colors := ["#34d399"] |};
    {| name := "Sky";       colors := ["#38bdf8"] |};
    {| name := "Fuchsia";   colors := ["#d946ef"] |} ]%string.

Definition CANVAS_WIDTH : Z := 1280.
Definition CANVAS_HEIGHT : Z := 720.

(** ** Web Audio objects *)

(** [getChannelData(0)], [sampleRate] and [duration] of an [AudioBuffer]. *)
Record AudioBuffer := {
  channelData0 : list Q;
  sampleRate : Q;
  duration : Q
}.

Record AnalyserNode := { fftSize : Z }.

Definition frequencyBinCount (a : AnalyserNode) : Z := (fftSize a / 2)%Z.

(** [createAnalyser()] followed by [analyser.fftSize = 2048], the only way
    the code makes an analyser. *)
Definition createAnalyser_2048 : AnalyserNode := {| fftSize := 2048 |}.

(** Reading a typed array at a number: an element for an integer index in
    range, [undefined] otherwise (also for a fractional index). *)
Definition typed_get {A} (arr : list A) (ix : Q) : option A :=
  if Qeq_bool ix (inject_Z (Qfloor ix)) && (0 <=? Qfloor ix)%Z
  then nth_error arr (Z.to_nat (Qfloor ix))
  else None.

Definition typed_get_nat {A} (arr : list A) (i : nat) : option A :=
  nth_error arr i.

(** The value of an element of a [Uint8Array]. *)
Definition u8 (b : Byte.byte) : Z := Z.of_N (Byte.to_N b).

(** ** The canvas *)

Module Canvas.

Inductive CanvasGradient :=
| Linear (x0 y0 x1 y1 : Q) (stops : list (Q * string))
| Radial (x0 y0 r0 x1 y1 r1 : Q) (stops : list (Q * string)).

Inductive Paint :=
| Color (css : string)
| Gradient (g : CanvasGradient).

Inductive PathOp :=
| MoveTo (x y : Q)
| LineTo (x y : Q)
| Arc (x y r a0 a1 : Q).

(** What has been painted: each primitive carries the paint, alpha and
    line width in force when it was issued. *)
Inductive Prim :=
| PClear (x y w h : Q)
| PFillRect (p : Paint) (alpha : Q) (x y w h : Q)
| PFill (p : Paint) (alpha : Q) (path : list PathOp)
| PStroke (p : Paint) (alpha width : Q) (path : list PathOp).

Record Context2D := {
  width : Z;
  height : Z;
  fillStyle : Paint;
  strokeStyle : Paint;
  lineWidth : Q;
  globalAlpha : Q;
  path : list PathOp;
  display : list Prim
}.

(** A context as [getContext('2d')] first returns it. *)
Definition fresh (w h : Z) : Context2D :=
  {| width := w; height := h;
     fillStyle := Color "#000000"; strokeStyle := Color "#000000";
     lineWidth := 1; globalAlpha := 1; path := []; display := [] |}.

Inductive Exn : Set := TypeError.

Inductive Outcome (A : Type) :=
| Returned (a : A)
| Thrown (e : Exn).
Arguments Thrown {A} e.

(** Drawing code: reads and updates the context, returns or throws; the
    context as it was when an exception left the code is kept. *)
Definition Draw (A : Type) := Context2D -> Outcome A * Context2D.

Definition ret {A} (a : A) : Draw A := fun c => (Returned a, c).

Definition bind {A B} (m : Draw A) (k : A -> Draw B) : Draw B :=
  fun c =>
    match m c with
    | (Returned a, c') => k a c'
    | (Thrown e, c') => (Thrown e, c')
    end.

Definition throw {A} (e : Exn) : Draw A := fun c => (Thrown e, c).

Definition gets {A} (f : Context2D -> A) : Draw A :=
  fun c => (Returned (f c), c).

Definition modify (f : Context2D -> Context2D) : Draw unit :=
  fun c => (Returned tt, f c).

End Canvas.

Import Canvas.

Declare Scope draw_scope.
Delimit Scope draw_scope with draw.
Notation "x <- m ;; k" := (bind m (fun x => k))
  (at level 61, m at next level, right associativity) : draw_scope.
Notation "m ;; k" := (bind m (fun _ => k))
  (at level 61, right associativity) : draw_scope.
Open Scope draw_scope.

(** [for (let i = 0; i < n; i++) body(i)], from [i]. *)
Fixpoint for_from (i : nat) (n : nat) (body : nat -> Draw unit) : Draw unit :=
  match n with
  | O => ret tt
  | S n' => body i ;; for_from (S i) n' body
  end.

Definition for_upto (n : nat) (body : nat -> Draw unit) : Draw unit :=
  for_from 0 n body.

Module CanvasAPI.

Definition set_fillStyle (v : option Paint) : Draw unit :=
  modify (fun c =>
    match v with
    | Some p =>
        {| width := width c; height := height c; fillStyle := p;
           strokeStyle := strokeStyle c; lineWidth := lineWidth c;
           globalAlpha := globalAlpha c; path := path c;
           display := display c |}
    | None => c  (* an assignment of [undefined] is ignored *)
    end).

Definition set_strokeStyle (v : option Paint) : Draw unit :=
  modify (fun c =>
    match v with
    | Some p =>
        {| width := width c; height := height c; fillStyle := fillStyle c;
           strokeStyle := p; lineWidth := lineWidth c;
           globalAlpha := globalAlpha c; path := path c;
           display := display c |}
    | None => c
    end).

Definition set_lineWidth (w : Q) : Draw unit :=
  modify (fun c =>
    {| width := width c; height := height c; fillStyle := fillStyle c;
       strokeStyle := strokeStyle c; lineWidth := w;
       globalAlpha := globalAlpha c; path := path c;
       display := display c |}).

Definition set_globalAlpha (a : Q) : Draw unit :=
  modify (fun c =>
    {| width := width c; height := height c; fillStyle := fillStyle c;
       strokeStyle := strokeStyle c; lineWidth := lineWidth c;
       globalAlpha := a; path := path c; display := display c |}).

Definition set_path (p : list PathOp) (c : Context2D) : Context2D :=
  {| width := width c; height := height c; fillStyle := fillStyle c;
     strokeStyle := strokeStyle c; lineWidth := lineWidth c;
     globalAlpha := globalAlpha c; path := p; display := display c |}.

Definition set_display (d : list Prim) (c : Context2D) : Context2D :=
  {| width := width c; height := height c; fillStyle := fillStyle c;
     strokeStyle := strokeStyle c; lineWidth := lineWidth c;
     globalAlpha := globalAlpha c; path := path c; display := d |}.

Definition paint (p : Prim) : Draw unit :=
  modify (fun c => set_display (display c ++ [p]) c).

(** [clearRect]: clearing the whole bitmap forgets what was painted. *)
Definition clearRect (x y w h : Q) : Draw unit :=
  modify (fun c =>
    if Qeq_bool x 0 && Qeq_bool y 0
       && Qeq_bool w (inject_Z (width c)) && Qeq_bool h (inject_Z (height c))
    then set_display [] c
    else set_display (display c ++ [PClear x y w h]) c).

(** [fillRect] takes unrestricted doubles: a non-finite argument makes the
    call do nothing. *)
Definition fillRect (x y w h : number) : Draw unit :=
  match x, y, w, h with
  | Some x, Some y, Some w, Some h =>
      fs <- gets fillStyle ;; a <- gets globalAlpha ;;
      paint (PFillRect fs a x y w h)
  | _, _, _, _ => ret tt
  end.

Definition beginPath : Draw unit := modify (set_path []).

Definition add_path (op : PathOp) : Draw unit :=
  modify (fun c => set_path (path c ++ [op]) c).

Definition moveTo (x y : number) : Draw unit :=
  match x, y with
  | Some x, Some y => add_path (MoveTo x y)
  | _, _ => ret tt
  end.

Definition lineTo (x y : number) : Draw unit :=
  match x, y with
  | Some x, Some y => add_path (LineTo x y)
  | _, _ => ret tt
  end.

Definition arc (x y r a0 a1 : number) : Draw unit :=
  match x, y, r, a0, a1 with
  | Some x, Some y, Some r, Some a0, Some a1 => add_path (Arc x y r a0 a1)
  | _, _, _, _, _ => ret tt
  end.

Definition fill : Draw unit :=
  fs <- gets fillStyle ;; a <- gets globalAlpha ;; p <- gets path ;;
  paint (PFill fs a p).

Definition stroke : Draw unit :=
  ss <- gets strokeStyle ;; a <- gets globalAlpha ;;
  lw <- gets lineWidth ;; p <- gets path ;;
  paint (PStroke ss a lw p).

(** [forEach((color, index) => gradient.addColorStop(index / (len - 1),
    color))] on a fresh gradient: the list of its stops. *)
Fixpoint addColorStops (len : nat) (index : nat) (cs : list string)
  : list (Q * string) :=
  match cs with
  | [] => []
  | color :: rest =>
      (inject_Z (Z.of_nat index) / inject_Z (Z.of_nat len - 1), color)
        :: addColorStops len (S index) rest
  end.

(** [createLinearGradient] takes restricted doubles: a non-finite argument
    is a [TypeError]. *)
Definition createLinearGradient (x0 y0 x1 y1 : number)
  : Draw (list (Q * string) -> CanvasGradient) :=
  match x0, y0, x1, y1 with
  | Some x0, Some y0, Some x1, Some y1 => ret (Linear x0 y0 x1 y1)
  | _, _, _, _ => throw TypeError
  end.

Definition createRadialGradient (x0 y0 r0 x1 y1 r1 : number)
  : Draw (list (Q * string) -> CanvasGradient) :=
  match x0, y0, r0, x1, y1, r1 with
  | Some x0, Some y0, Some r0, Some x1, Some y1, Some r1 =>
      ret (Radial x0 y0 r0 x1 y1 r1)
  | _, _, _, _, _, _ => throw TypeError
  end.

End CanvasAPI.

Import CanvasAPI.

(** ** [drawWaveform] *)

(** [selectedColorPreset.colors[0]]. *)
Definition colors0 (p : ColorPreset) : option string := nth_error (colors p) 0.

(** The closure [getActiveStyle] of [drawWaveform]. *)
Definition getActiveStyle (selectedColorPreset : ColorPreset)
  (y1 y2 : number) : Draw (option Paint) :=
  let cs := colors selectedColorPreset in
  if (1 <? List.length cs)%nat then
    gradient <- createLinearGradient (Num.fin 0) y1 (Num.fin 0) y2 ;;
    ret (Some (Gradient (gradient (addColorStops (List.length cs) 0 cs))))
  else
    ret (option_map Color (colors0 selectedColorPreset)).

(** [Math.cos], [Math.sin] and [Math.PI] are taken as an interface: the
    renderer only passes their values on to the canvas. *)
Class MathLib := {
  Math_cos : Q -> Q;
  Math_sin : Q -> Q;
  Math_PI : Q
}.

Definition style_eqb (a b : WaveformStyle) : bool :=
  match a, b with
  | Line, Line | GradientLine, GradientLine | ReflectedLine, ReflectedLine
  | Equalizer, Equalizer | SymmetricBars, SymmetricBars
  | BottomBars, BottomBars | Circle, Circle | Pulse, Pulse => true
  | _, _ => false
  end.

(** [freqData[i]] as a number: [undefined] becomes NaN in arithmetic. *)
Definition bin (freqData : list Byte.byte) (i : nat) : number :=
  option_map (fun b => inject_Z (u8 b)) (typed_get_nat freqData i).

(** [Math.pow(v / 255, 2)]: the amplitude shaping shared by the spectrum
    styles. *)
Definition shaped (v : number) : number := Num.sq (v / Num.fin 255)%js.

(** The number of iterations of [for (let i = 0; i < n; i++)]. *)
Definition iterations (n : Q) : nat := Z.to_nat (Qceiling n).

Section DrawWaveform.

Context {M : MathLib}.

(** The session ref [analyserNode.current], read by the Equalizer case. *)
Variable analyserNode : option AnalyserNode.

Variable buffer : AudioBuffer.
Variable currentTime : Q.
Variable style : WaveformStyle.
Variable selectedColorPreset : ColorPreset.
Variable isTransparentBg : bool.
Variable freqData : option (list Byte.byte).

(** [style === Equalizer ? analyserNode.current!.frequencyBinCount / 4 : 128];
    the non-null assertion is erased by the compiler, so a null ref throws. *)
Definition barCount : Draw Q :=
  if style_eqb style Equalizer then
    match analyserNode with
    | Some a => ret (inject_Z (frequencyBinCount a) / 4)
    | None => throw TypeError
    end
  else ret 128.

Definition barGap : Q := if style_eqb style Equalizer then 1 else 4.

(** [barHeight] of bar [i]. *)
Definition barHeight (fd : list Byte.byte) (height : Q) (i : nat) : number :=
  (shaped (bin fd i) * Num.fin height)%js.

(** Cases [Equalizer], [SymmetricBars] and [BottomBars] of the switch. *)
Definition case_Bars (width height : Q) : Draw unit :=
  match freqData with
  | None => ret tt
  | Some fd =>
      n <- barCount ;;
      let barWidth :=
        (Num.fin (width - (n - 1) * barGap) / Num.fin n)%js in
      for_upto (iterations n) (fun i =>
        let bh := barHeight fd height i in
        let x := (Num.ofZ (Z.of_nat i) * (barWidth + Num.fin barGap))%js in
        fs <- getActiveStyle selectedColorPreset
                (Num.fin (height / 2)) (Num.fin height) ;;
        set_fillStyle fs ;;
        if style_eqb style BottomBars
        then fillRect x (Num.fin height - bh)%js barWidth bh
        else fillRect x ((Num.fin height - bh) / Num.fin 2)%js barWidth bh)
  end.

(** [Math.floor(freqData.length * 0.1)]. *)
Definition bassFrequencies (fd : list Byte.byte) : nat :=
  (List.length fd / 10)%nat.

(** [for (i < bassFrequencies) bassSum += freqData[i]]. *)
Definition bassSum (fd : list Byte.byte) : number :=
  fold_left (fun acc i => (acc + bin fd i)%js)
            (seq 0 (bassFrequencies fd)) (Num.fin 0).

Definition bassAvg (fd : list Byte.byte) : number :=
  (bassSum fd / Num.ofZ (Z.of_nat (bassFrequencies fd)))%js.

Definition baseRadius (height : Q) : Q := height * (1 # 10).

Definition pulseRadius (fd : list Byte.byte) (height : Q) : number :=
  (Num.fin (baseRadius height)
   + (bassAvg fd / Num.fin 255) * Num.fin height * Num.fin (1 # 2))%js.

(** [colors[0] + suffix] assigned to a style attribute; with no first colour
    the string is not a colour and the assignment is ignored. *)
Definition colors0_with (suffix : string) : option Paint :=
  option_map (fun c => Color (c ++ suffix)) (colors0 selectedColorPreset).

(** Case [Pulse]. *)
Definition case_Pulse (width height : Q) : Draw unit :=
  match freqData with
  | None => ret tt
  | Some fd =>
      let centerX := width / 2 in
      let centerY := height / 2 in
      let r := pulseRadius fd height in
      set_fillStyle (colors0_with "33") ;;
      ss <- getActiveStyle selectedColorPreset
              (Num.fin centerY - r)%js (Num.fin centerY + r)%js ;;
      set_strokeStyle ss ;;
      set_lineWidth 3 ;;
      beginPath ;;
      arc (Num.fin centerX) (Num.fin centerY) r
          (Num.fin 0) (Num.fin (2 * Math_PI)) ;;
      fill ;;
      stroke ;;
      set_strokeStyle (colors0_with "80") ;;
      set_lineWidth 1 ;;
      beginPath ;;
      arc (Num.fin centerX) (Num.fin centerY) (Num.fin (height * (1 # 4)))
          (Num.fin 0) (Num.fin (2 * Math_PI)) ;;
      stroke ;;
      beginPath ;;
      arc (Num.fin centerX) (Num.fin centerY) (Num.fin (height * (2 # 5)))
          (Num.fin 0) (Num.fin (2 * Math_PI)) ;;
      stroke
  end.

(** [Math.floor(i / numBars * freqData.length)]. *)
Definition resample_index (i numBars len : nat) : Z :=
  Qfloor (inject_Z (Z.of_nat i) / inject_Z (Z.of_nat numBars)
          * inject_Z (Z.of_nat len)).

(** Case [Circle]. *)
Definition case_Circle (width height : Q) : Draw unit :=
  match freqData with
  | None => ret tt
  | Some fd =>
      let radius := height / 4 in
      let numBars := 360%nat in
      let centerX := width / 2 in
      let centerY := height / 2 in
      let cs := colors selectedColorPreset in
      ss <- (if (1 <? List.length cs)%nat then
               gradient <- createRadialGradient
                 (Num.fin centerX) (Num.fin centerY) (Num.fin radius)
                 (Num.fin centerX) (Num.fin centerY)
                 (Num.fin (radius + height / 2)) ;;
               ret (Some (Gradient
                            (gradient (addColorStops (List.length cs) 0 cs))))
             else ret (option_map Color (colors0 selectedColorPreset))) ;;
      set_strokeStyle ss ;;
      set_lineWidth 2 ;;
      for_upto numBars (fun i =>
        let dataIndex := resample_index i numBars (List.length fd) in
        let amplitude :=
          option_map (fun b => inject_Z (u8 b))
                     (typed_get fd (inject_Z dataIndex)) in
        let bh := (shaped amplitude * Num.fin height * Num.fin (3 # 4))%js in
        let angle :=
          inject_Z (Z.of_nat i) / inject_Z (Z.of_nat numBars) * 2 * Math_PI in
        let x1 := centerX + Math_cos angle * radius in
        let y1 := centerY + Math_sin angle * radius in
        let x2 := (Num.fin centerX
                   + Num.fin (Math_cos angle) * (Num.fin radius + bh))%js in
        let y2 := (Num.fin centerY
                   + Num.fin (Math_sin angle) * (Num.fin radius + bh))%js in
        beginPath ;;
        moveTo (Num.fin x1) (Num.fin y1) ;;
        lineTo x2 y2 ;;
        stroke)
  end.

(** [data[sampleIndex] || 0]. *)
Definition sample_or_0 (data : list Q) (sampleIndex : Q) : Q :=
  match typed_get data sampleIndex with
  | Some a => a
  | None => 0
  end.

(** [Math.max(0, currentSampleIndex - samplesToDraw / 2)]. *)
Definition startSample (currentSampleIndex samplesToDraw : Z) : Q :=
  Qmax 0 (inject_Z currentSampleIndex - inject_Z samplesToDraw / 2).

(** The vertical position of step [i] of [drawLine]. *)
Definition line_y (data : list Q) (start height : Q) (reflection : bool)
  (i : nat) : Q :=
  let sampleIndex := start + inject_Z (Z.of_nat i) in
  let amplitude := sample_or_0 data sampleIndex in
  (if reflection then - amplitude else amplitude) * height / 4 + height / 2.

(** The closure [drawLine] of the line cases. *)
Definition drawLine (data : list Q) (currentSampleIndex : Z)
  (width height : Q) (reflection : bool) : Draw unit :=
  beginPath ;;
  let samplesToDraw := Qfloor width in
  let start := startSample currentSampleIndex samplesToDraw in
  for_upto (Z.to_nat samplesToDraw) (fun i =>
    let x := inject_Z (Z.of_nat i) in
    let y := line_y data start height reflection i in
    if Nat.eqb i 0 then moveTo (Num.fin x) (Num.fin y)
    else lineTo (Num.fin x) (Num.fin y)) ;;
  stroke.

(** The [strokeStyle] computed at the head of the line cases. *)
Definition line_strokeStyle (width : Q) : Draw (option Paint) :=
  if style_eqb style Line then
    ret (option_map Color (colors0 selectedColorPreset))
  else
    let cs := colors selectedColorPreset in
    if (1 <? List.length cs)%nat then
      gradient <- createLinearGradient
        (Num.fin 0) (Num.fin 0) (Num.fin width) (Num.fin 0) ;;
      ret (Some (Gradient (gradient (addColorStops (List.length cs) 0 cs))))
    else ret (option_map Color (colors0 selectedColorPreset)).

(** Cases [ReflectedLine], [GradientLine] and [Line]. *)
Definition case_Lines (data : list Q) (currentSampleIndex : Z)
  (width height : Q) : Draw unit :=
  ss <- line_strokeStyle width ;;
  set_lineWidth 2 ;;
  set_strokeStyle ss ;;
  drawLine data currentSampleIndex width height false ;;
  if style_eqb style ReflectedLine then
    set_globalAlpha (1 # 2) ;;
    drawLine data currentSampleIndex width height true ;;
    set_globalAlpha 1
  else ret tt.

Definition drawWaveform : Draw unit :=
  let data := channelData0 buffer in
  w <- gets width ;;
  h <- gets height ;;
  let width := inject_Z w in
  let height := inject_Z h in
  let currentSampleIndex := Qfloor (currentTime * sampleRate buffer) in
  clearRect 0 0 width height ;;
  (if negb isTransparentBg then
     set_fillStyle (Some (Color "#111827")) ;;
     fillRect (Num.fin 0) (Num.fin 0) (Num.fin width) (Num.fin height)
   else ret tt) ;;
  match style with
  | Equalizer | SymmetricBars | BottomBars => case_Bars width height
  | Pulse => case_Pulse width height
  | Circle => case_Circle width height
  | ReflectedLine | GradientLine | Line =>
      case_Lines data currentSampleIndex width height
  end.

End DrawWaveform.

(** ** The recording loop of [handleExport] *)

(** What a call of [handleExport] captures from the render in which the
    button was clicked. *)
Record ExportClosure := {
  x_buffer : AudioBuffer;
  x_style : WaveformStyle;
  x_preset : ColorPreset;
  x_transparent : bool
}.

(** What the callbacks of the recording loop do to the browser objects and
    to React state, in program order.  [DrawWaveform t] is the call of
    [drawWaveform] at position [t]; [Uncaught] is an exception leaving the
    callback. *)
Inductive Effect :=
| DrawWaveform (currentTime : Q)
| SetExportProgress (p : number)
| RequestAnimationFrame
| BufferSourceStop
| RecorderStop
| TracksStop
| Uncaught (e : Exn).

Definition is_RequestAnimationFrame (e : Effect) : bool :=
  match e with RequestAnimationFrame => true | _ => false end.

(** [a < b] on numbers that are finite. *)
Definition Qltb (a b : Q) : bool := negb (Qle_bool b a).

(** [analyser.getByteFrequencyData(array)]: the array, which has
    [frequencyBinCount] elements, is overwritten with the analyser's current
    byte spectrum. *)
Definition getByteFrequencyData (a : AnalyserNode)
  (spectrum : list Byte.byte) : list Byte.byte :=
  let n := Z.to_nat (frequencyBinCount a) in
  firstn n (spectrum ++ repeat Byte.x00 n).

(** One reading of the environment by a callback: [performance.now()] and
    the spectrum the export analyser holds at that moment. *)
Definition Tick : Type := Q * list Byte.byte.

Section ExportLoop.

Context {M : MathLib}.

(** The session ref [analyserNode.current], which [drawWaveform] reads. *)
Variable analyserNode : option AnalyserNode.

Variable x : ExportClosure.

(** The closure [recordAnimation(startTime)], run at clock reading [now];
    [canvas] is [canvas.getContext('2d')], [None] when it is null. *)
Definition recordAnimation (startTime : Q) (tick : Tick)
  (canvas : option Context2D) : list Effect * option Context2D :=
  let '(now, spectrum) := tick in
  let elapsedTime := (now - startTime) / 1000 in
  let duration := duration (x_buffer x) in
  if Qltb elapsedTime duration then
    let progress :=
      (Num.fin elapsedTime / Num.fin duration * Num.fin 100)%js in
    match canvas with
    | Some context =>
        let frequencyDataForExport :=
          getByteFrequencyData createAnalyser_2048 spectrum in
        match drawWaveform analyserNode (x_buffer x) elapsedTime (x_style x)
                (x_preset x) (x_transparent x)
                (Some frequencyDataForExport) context with
        | (Returned _, context') =>
            ([DrawWaveform elapsedTime; SetExportProgress progress;
              RequestAnimationFrame], Some context')
        | (Thrown e, context') =>
            ([DrawWaveform elapsedTime; Uncaught e], Some context')
        end
    | None => ([SetExportProgress progress; RequestAnimationFrame], None)
    end
  else
    ([BufferSourceStop; RecorderStop; TracksStop;
      SetExportProgress (Num.fin 100)], canvas).

(** The callbacks of one recording, one per tick, for as long as the
    previous one requested another animation frame. *)
Fixpoint export_loop (startTime : Q) (ticks : list Tick)
  (canvas : option Context2D) : list Effect * option Context2D :=
  match ticks with
  | [] => ([], canvas)
  | tick :: rest =>
      let '(effects, canvas') := recordAnimation startTime tick canvas in
      if existsb is_RequestAnimationFrame effects then
        let '(more, canvas'') := export_loop startTime rest canvas' in
        (effects ++ more, canvas'')
      else (effects, canvas')
  end.

End ExportLoop.

(** The positions at which frames were rendered. *)
Definition rendered_positions (trace : list Effect) : list Q :=
  flat_map (fun e => match e with DrawWaveform t => [t] | _ => [] end) trace.

(** The values reported to [setExportProgress]. *)
Definition progress_reports (trace : list Effect) : list number :=
  flat_map (fun e => match e with SetExportProgress p => [p] | _ => [] end)
           trace.

(** The specification's [progressFraction] is [exportProgress], a
    percentage, over 100. *)
Definition progressFraction (exportProgress : Q) : Q := exportProgress / 100.

(** How many reports set [progressFraction] to 1. *)
Definition count_complete (reports : list number) : nat :=
  List.length
    (filter (fun p => match p with
                      | Some q => Qeq_bool (progressFraction q) 1
                      | None => false
                      end) reports).

(** [elapsedTime] at clock reading [now]. *)
Definition elapsed (startTime now : Q) : Q := (now - startTime) / 1000.

Definition has_context (canvas : option Context2D) : bool :=
  match canvas with Some _ => true | None => false end.

(** The effects of a callback that finds [elapsedTime] below the duration:
    it renders if there is a context, reports the progress and goes on. *)
Definition frame_effects (drawn : bool) (duration elapsedTime : Q)
  : list Effect :=
  (if drawn then [DrawWaveform elapsedTime] else [])
  ++ [SetExportProgress (Some (elapsedTime / duration * 100));
      RequestAnimationFrame].

(** The effects of the callback that ends the recording. *)
Definition final_effects : list Effect :=
  [BufferSourceStop; RecorderStop; TracksStop; SetExportProgress (Some 100)].

(** Positions that advance by one fixed step from the first one. *)
Fixpoint fixed_step (dt : Q) (positions : list Q) : Prop :=
  match positions with
  | a :: (b :: _) as rest => b - a == dt /\ fixed_step dt rest
  | _ => True
  end.

(** ** The component [App]

    React state ([useState]) and refs ([useRef]) are the fields of [App];
    state the claims do not involve ([file], [fileName], [error],
    [isPlaying], the audio element) is left out.  [jobs] holds the objects
    created by the calls of [handleExport]. *)

(** A canvas element: [context2d] is what [getContext('2d')] returns. *)
Record HTMLCanvasElement := { context2d : option Context2D }.

(** [MediaRecorder.state]. *)
Inductive RecordingState := Inactive | Recording.

(** The objects one call of [handleExport] creates and its callbacks share. *)
Record ExportJob := {
  job_closure : ExportClosure;
  job_recorder : RecordingState;
  (** [recorder.stop()] was called and [onstop] has not run yet *)
  job_stop_pending : bool;
  (** the buffer source is playing *)
  job_source_playing : bool;
  (** the argument of [recordAnimation], once the first callback has run *)
  job_startTime : option Q;
  (** a callback is waiting for the next animation frame *)
  job_frame_requested : bool
}.

Record App := {
  audioBuffer : option AudioBuffer;
  isLoading : bool;
  waveformStyle : WaveformStyle;
  colorPreset : ColorPreset;
  isTransparent : bool;
  isExporting : bool;
  exportProgress : number;
  exportedVideoUrl : option nat;
  canvasRef : option HTMLCanvasElement;
  analyserNode : option AnalyserNode;
  frequencyData : option (list Byte.byte);
  jobs : list ExportJob
}.

(** The component once mounted. *)
Definition initial_App : App :=
  {| audioBuffer := None; isLoading := false;
     waveformStyle := Equalizer;
     colorPreset := hd {| name := ""; colors := [] |} COLOR_PRESETS;
     isTransparent := false; isExporting := false;
     exportProgress := Some 0; exportedVideoUrl := None;
     canvasRef :=
       Some {| context2d := Some (fresh CANVAS_WIDTH CANVAS_HEIGHT) |};
     analyserNode := None; frequencyData := None; jobs := [] |}.

Definition with_audio (b : option AudioBuffer) (l : bool) (st : App) : App :=
  {| audioBuffer := b; isLoading := l;
     waveformStyle := waveformStyle st; colorPreset := colorPreset st;
     isTransparent := isTransparent st; isExporting := isExporting st;
     exportProgress := exportProgress st;
     exportedVideoUrl := exportedVideoUrl st; canvasRef := canvasRef st;
     analyserNode := analyserNode st; frequencyData := frequencyData st;
     jobs := jobs st |}.

Definition with_config (s : WaveformStyle) (p : ColorPreset) (t : bool)
  (st : App) : App :=
  {| audioBuffer := audioBuffer st; isLoading := isLoading st;
     waveformStyle := s; colorPreset := p; isTransparent := t;
     isExporting := isExporting st; exportProgress := exportProgress st;
     exportedVideoUrl := exportedVideoUrl st; canvasRef := canvasRef st;
     analyserNode := analyserNode st; frequencyData := frequencyData st;
     jobs := jobs st |}.

Definition with_export (e : bool) (p : number) (u : option nat) (st : App)
  : App :=
  {| audioBuffer := audioBuffer st; isLoading := isLoading st;
     waveformStyle := waveformStyle st; colorPreset := colorPreset st;
     isTransparent := isTransparent st; isExporting := e;
     exportProgress := p; exportedVideoUrl := u; canvasRef := canvasRef st;
     analyserNode := analyserNode st; frequencyData := frequencyData st;
     jobs := jobs st |}.

Definition with_canvas (cv : option HTMLCanvasElement) (st : App) : App :=
  {| audioBuffer := audioBuffer st; isLoading := isLoading st;
     waveformStyle := waveformStyle st; colorPreset := colorPreset st;
     isTransparent := isTransparent st; isExporting := isExporting st;
     exportProgress := exportProgress st;
     exportedVideoUrl := exportedVideoUrl st; canvasRef := cv;
     analyserNode := analyserNode st; frequencyData := frequencyData st;
     jobs := jobs st |}.

Definition with_analyser (a : option AnalyserNode)
  (fd : option (list Byte.byte))
  (st : App) : App :=
  {| audioBuffer := audioBuffer st; isLoading := isLoading st;
     waveformStyle := waveformStyle st; colorPreset := colorPreset st;
     isTransparent := isTransparent st; isExporting := isExporting st;
     exportProgress := exportProgress st;
     exportedVideoUrl := exportedVideoUrl st; canvasRef := canvasRef st;
     analyserNode := a; frequencyData := fd; jobs := jobs st |}.

Definition with_jobs (js : list ExportJob) (st : App) : App :=
  {| audioBuffer := audioBuffer st; isLoading := isLoading st;
     waveformStyle := waveformStyle st; colorPreset := colorPreset st;
     isTransparent := isTransparent st; isExporting := isExporting st;
     exportProgress := exportProgress st;
     exportedVideoUrl := exportedVideoUrl st; canvasRef := canvasRef st;
     analyserNode := analyserNode st; frequencyData := frequencyData st;
     jobs := js |}.

(** [l[k] = f(l[k])] when [k] is in range. *)
Fixpoint update_nth {A} (k : nat) (f : A -> A) (l : list A) : list A :=
  match l, k with
  | [], _ => []
  | j :: rest, O => f j :: rest
  | j :: rest, S k' => j :: update_nth k' f rest
  end.

(** *** [handleFileChange]

    The handler up to its first [await], then its continuation once
    decoding has settled: [decoded] is the buffer, or [None] when
    [arrayBuffer()] or [decodeAudioData] rejected. *)
Definition handleFileChange_begin (selectedFile : bool) (st : App) : App :=
  if selectedFile then
    with_export (isExporting st) (exportProgress st) None
      (with_audio None true st)
  else st.

Definition handleFileChange_settled (decoded : option AudioBuffer) (st : App)
  : App :=
  match decoded with
  | Some decodedBuffer =>
      let st1 := with_audio (Some decodedBuffer) (isLoading st) st in
      let st2 :=
        match analyserNode st1 with
        | None =>
            let analyser := createAnalyser_2048 in
            with_analyser (Some analyser)
              (Some (repeat Byte.x00 (Z.to_nat (frequencyBinCount analyser))))
              st1
        | Some _ => st1
        end in
      with_audio (audioBuffer st2) false st2
  | None => with_audio (audioBuffer st) false st
  end.

(** *** [handleExport] *)

Definition new_job (buf : AudioBuffer) (st : App) : ExportJob :=
  {| job_closure := {| x_buffer := buf; x_style := waveformStyle st;
                       x_preset := colorPreset st;
                       x_transparent := isTransparent st |};
     job_recorder := Recording;          (* recorder.start() *)
     job_stop_pending := false;
     job_source_playing := true;         (* bufferSource.start() *)
     job_startTime := None;
     job_frame_requested := true |}.     (* requestAnimationFrame(...) *)

Definition handleExport (st : App) : App :=
  match canvasRef st, audioBuffer st with
  | Some _, Some buf =>
      with_jobs (jobs st ++ [new_job buf st])
        (with_export true (Some 0) None st)
  | _, _ => st
  end.

(** The button "Create Video" is rendered under [audioBuffer &&
    !isExporting] and is disabled while [isLoading]; only then does a click
    call [handleExport]. *)
Definition createVideo_enabled (st : App) : bool :=
  match audioBuffer st with Some _ => true | None => false end
  && negb (isExporting st) && negb (isLoading st).

Definition click_CreateVideo (st : App) : App :=
  if createVideo_enabled st then handleExport st else st.

(** *** The callbacks of a job *)

Definition job_after (effects : list Effect) (startTime : Q) (j : ExportJob)
  : ExportJob :=
  let stops := existsb (fun e => match e with RecorderStop => true
                                         | _ => false end) effects in
  let was_recording :=
    match job_recorder j with Recording => true | Inactive => false end in
  {| job_closure := job_closure j;
     job_recorder := if stops then Inactive else job_recorder j;
     (* [stop()] on an inactive recorder raises and queues no event *)
     job_stop_pending :=
       if stops && was_recording then true else job_stop_pending j;
     job_source_playing :=
       if existsb (fun e => match e with BufferSourceStop => true
                                    | _ => false end) effects
       then false else job_source_playing j;
     job_startTime := Some startTime;
     job_frame_requested := existsb is_RequestAnimationFrame effects |}.

(** The last value passed to [setExportProgress], if any. *)
Definition progress_after (effects : list Effect) (p : number) : number :=
  last (progress_reports effects) p.

Definition job_stopped (j : ExportJob) : ExportJob :=
  {| job_closure := job_closure j; job_recorder := job_recorder j;
     job_stop_pending := false;
     job_source_playing := job_source_playing j;
     job_startTime := job_startTime j;
     job_frame_requested := job_frame_requested j |}.

(** A job whose recorder records or has yet to deliver its [stop] event. *)
Definition job_active (j : ExportJob) : bool :=
  match job_recorder j with Recording => true | Inactive => false end
  || job_stop_pending j.

Definition active_jobs (st : App) : nat :=
  List.length (filter job_active (jobs st)).

(** What the browser and the user can make happen. *)
Inductive Event :=
| FileChosen (selectedFile : bool)
| DecodeSettled (decoded : option AudioBuffer)
| SetWaveformStyle (s : WaveformStyle)
| SetColorPreset (p : ColorPreset)
| ToggleTransparent
| ClickCreateVideo
  (** the animation-frame callback of job [k]: [t0] and [t1] are the
      readings of [performance.now()] on entry (used by the first callback
      as [startTime]) and inside [recordAnimation] *)
| AnimationFrame (k : nat) (t0 t1 : Q) (spectrum : list Byte.byte)
  (** [recorder.onstop] of job [k] *)
| RecorderStopped (k : nat)
  (** a preview render ([animate] or the effect on pause) at the audio
      element's [currentTime] *)
| PreviewFrame (currentTime : Q) (spectrum : list Byte.byte).

Section Component.

Context {M : MathLib}.

Definition animation_frame (k : nat) (t0 t1 : Q)
  (spectrum : list Byte.byte)
  (st : App) : App :=
  match nth_error (jobs st) k, canvasRef st with
  | Some j, Some canvas =>
      if job_frame_requested j then
        let startTime :=
          match job_startTime j with Some s => s | None => t0 end in
        let '(effects, context') :=
          recordAnimation (analyserNode st) (job_closure j) startTime
            (t1, spectrum) (context2d canvas) in
        with_jobs (update_nth k (job_after effects startTime) (jobs st))
          (with_export (isExporting st)
             (progress_after effects (exportProgress st))
             (exportedVideoUrl st)
             (with_canvas (Some {| context2d := context' |}) st))
      else st
  | _, _ => st
  end.

Definition recorder_onstop (k : nat) (st : App) : App :=
  match nth_error (jobs st) k with
  | Some j =>
      if job_stop_pending j then
        with_jobs (update_nth k job_stopped (jobs st))
          (with_export false (exportProgress st) (Some k) st)
      else st
  | None => st
  end.

(** [animate], and the render of the effect that runs when playback is
    paused: both draw with the session's [frequencyData.current]. *)
Definition preview_frame (currentTime : Q) (spectrum : list Byte.byte)
  (st : App)
  : App :=
  match canvasRef st, audioBuffer st with
  | Some canvas, Some buf =>
      match context2d canvas with
      | Some context =>
          let fd :=
            match analyserNode st, frequencyData st with
            | Some a, Some _ => Some (getByteFrequencyData a spectrum)
            | _, other => other
            end in
          let context' :=
            snd (drawWaveform (analyserNode st) buf currentTime
                   (waveformStyle st) (colorPreset st) (isTransparent st)
                   fd context) in
          with_canvas (Some {| context2d := Some context' |})
            (with_analyser (analyserNode st) fd st)
      | None => st
      end
  | _, _ => st
  end.

Definition dispatch (e : Event) (st : App) : App :=
  match e with
  | FileChosen f => handleFileChange_begin f st
  | DecodeSettled d => handleFileChange_settled d st
  | SetWaveformStyle s =>
      with_config s (colorPreset st) (isTransparent st) st
  | SetColorPreset p =>
      with_config (waveformStyle st) p (isTransparent st) st
  | ToggleTransparent =>
      with_config (waveformStyle st) (colorPreset st)
        (negb (isTransparent st)) st
  | ClickCreateVideo => click_CreateVideo st
  | AnimationFrame k t0 t1 spectrum => animation_frame k t0 t1 spectrum st
  | RecorderStopped k => recorder_onstop k st
  | PreviewFrame t spectrum => preview_frame t spectrum st
  end.

(** The state after a sequence of events. *)
Definition run (events : list Event) (st : App) : App :=
  fold_left (fun s e => dispatch e s) events st.

End Component.

(** ** Sample inputs *)

(** A rational stand-in for the math library, to run the renderer on
    concrete inputs. *)
Definition example_math : MathLib :=
  {| Math_cos := fun x => 1 - x * x / 2;
     Math_sin := fun x => x;
     Math_PI := 355 # 113 |}.

Definition Synthwave : ColorPreset :=
  {| name := "Synthwave"; colors := ["#ec4899"; "#6d28d9"]%string |}.
Definition Emerald : ColorPreset :=
  {| name := "Emerald"; colors := ["#34d399"]%string |}.

(** Two seconds of a small mono signal. *)
Definition example_buffer : AudioBuffer :=
  {| channelData0 := [1 # 2; - (1 # 2); 1 # 4; 0; - (1 # 4); 1];
     sampleRate := 3; duration := 2 |}.

(** A snapshot of 1024 bins, silent except for bin 8. *)
Definition snapshot_bin8 : list Byte.byte :=
  repeat Byte.x00 8 ++ [Byte.xff] ++ repeat Byte.x00 1015.

(** A snapshot of 1024 bins whose lowest 102 bins are saturated. *)
Definition snapshot_bass : list Byte.byte :=
  repeat Byte.xff 102 ++ repeat Byte.x07 922.

(** A context that has been drawn on before. *)
Definition used_canvas : Context2D :=
  {| width := 1280; height := 720;
     fillStyle := Color "#111827"; strokeStyle := Color "#38bdf8";
     lineWidth := 3; globalAlpha := 1; path := [MoveTo 0 360; LineTo 1 350];
     display := [PFillRect (Color "#111827") 1 0 0 1280 720] |}.

(** A short recording: a two-second signal drawn in the Line style. *)
Definition example_closure : ExportClosure :=
  {| x_buffer := example_buffer; x_style := Line; x_preset := Emerald;
     x_transparent := true |}.

(** Clock readings in milliseconds, as two different runs of the browser
    may deliver them; the spectrum is silent throughout. *)
Definition ticks_a : list Tick :=
  [(0, []); (16, []); (50, []); (2000, []); (2016, [])].
Definition ticks_b : list Tick :=
  [(0, []); (33, []); (66, []); (2001, [])].

(** ** Reading a frame *)

(** The heights of the rectangles of a display list, in painting order. *)
Definition rect_heights (d : list Prim) : list Q :=
  flat_map (fun p => match p with
                     | PFillRect _ _ _ _ _ h => [h]
                     | _ => []
                     end) d.

(** The frame left on the canvas by a run of drawing code. *)
Definition frame_of {A} (r : Outcome A * Context2D) : list Prim :=
  display (snd r).

(** Whether the run returned, and what it threw otherwise. *)
Definition thrown {A} (r : Outcome A * Context2D) : option Exn :=
  match fst r with
  | Returned _ => None
  | Thrown e => Some e
  end.

(** ** The resampling rule as the specification words it *)

(** Bar [i] of [M] bars over a snapshot of length [N] reads bin
    [floor(i / M * N)]; its height is the shaped amplitude of that bin. *)
Definition spec_resampled_bar_height (fd : list Byte.byte) (M : nat)
  (height : Q) (i : nat) : number :=
  (shaped (option_map (fun b => inject_Z (u8 b))
             (typed_get fd (inject_Z (resample_index i M (List.length fd)))))
   * Num.fin height)%js.

(** ** Auxiliary definitions of the proofs *)

(** The context after [context.fillStyle = v]. *)
Definition with_fill (v : option Paint) (c : Context2D) : Context2D :=
  snd (set_fillStyle v c).

(** The value [getActiveStyle] returns for finite arguments. *)
Definition resolved (preset : ColorPreset) (y1 y2 : Q) : option Paint :=
  if (1 <? List.length (colors preset))%nat then
    Some (Gradient (Linear 0 y1 0 y2
            (addColorStops (List.length (colors preset)) 0 (colors preset))))
  else option_map Color (colors0 preset).

(** The rectangle of bar [i] of the 128-bar styles on a [W] by [H] canvas:
    [v] is the bin value the bar shows. *)
Definition bar128_rect (bottom : bool) (W H : Q) (v : Z)
  (i : nat) (p : Paint) (alpha : Q) : Prim :=
  let barWidth := (W - (128 - 1) * 4) / 128 in
  let bh := inject_Z v / 255 * (inject_Z v / 255) * H in
  PFillRect p alpha
    (inject_Z (Z.of_nat i) * (barWidth + 4))
    (if bottom then H - bh else (H - bh) / 2)
    barWidth bh.

(** The rectangle of bar [i] of [n] bars separated by [gap], vertically
    centred, as the Equalizer style draws it. *)
Definition centred_bar_rect (n gap W H : Q) (v : Z)
  (i : nat) (p : Paint) (alpha : Q) : Prim :=
  let barWidth := (W - (n - 1) * gap) / n in
  let bh := inject_Z v / 255 * (inject_Z v / 255) * H in
  PFillRect p alpha
    (inject_Z (Z.of_nat i) * (barWidth + gap)) ((H - bh) / 2) barWidth bh.

(** The opaque background, when there is one. *)
Definition background (isTransparentBg : bool) (alpha W H : Q) : list Prim :=
  if isTransparentBg then []
  else [PFillRect (Color "#111827") alpha 0 0 W H].

(** The context once [drawWaveform] has cleared the canvas and, for an
    opaque background, filled it. *)
Definition cleared (isTransparentBg : bool) (c : Context2D) : Context2D :=
  if isTransparentBg then set_display [] c
  else
    set_display
      (background false (globalAlpha c)
         (inject_Z (width c)) (inject_Z (height c)))
      (with_fill (Some (Color "#111827")) c).

(** The sum of a list of bin values. *)
Definition Zsum (l : list Byte.byte) : Z :=
  fold_right (fun b acc => (u8 b + acc)%Z) 0%Z l.

(** The value the line cases assign to [strokeStyle] on a canvas of width
    [W]. *)
Definition line_style_value (style : WaveformStyle) (preset : ColorPreset)
  (W : Q) : option Paint :=
  if style_eqb style Line then option_map Color (colors0 preset)
  else if (1 <? List.length (colors preset))%nat then
    Some (Gradient (Linear 0 0 W 0
            (addColorStops (List.length (colors preset)) 0 (colors preset))))
  else option_map Color (colors0 preset).

(** The context after [context.strokeStyle = v]. *)
Definition with_stroke (v : option Paint) (c : Context2D) : Context2D :=
  snd (set_strokeStyle v c).

(** The path built by one call of [drawLine] on a canvas [w] wide and [H]
    high: one point per pixel column, the first reached by [moveTo] and the
    others by [lineTo]; [amp i] is the amplitude shown at column [i]. *)
Definition polyline (amp : nat -> Q) (w : Z) (H : Q) (reflection : bool)
  : list PathOp :=
  map (fun i =>
         let y := (if reflection then - amp i else amp i) * H / 4 + H / 2 in
         if Nat.eqb i 0 then MoveTo (inject_Z (Z.of_nat i)) y
         else LineTo (inject_Z (Z.of_nat i)) y)
      (seq 0 (Z.to_nat w)).

(** The amplitude [drawLine] shows at column [i] of a canvas [w] wide when
    the playback position is [t]. *)
Definition column_amplitude (buf : AudioBuffer) (t : Q) (w : Z) (i : nat) : Q :=
  sample_or_0 (channelData0 buf)
    (startSample (Qfloor (t * sampleRate buf)) w + inject_Z (Z.of_nat i)).

(** The strokes of the line cases: the polyline, and for ReflectedLine its
    mirror image at half opacity. *)
Definition line_strokes (style : WaveformStyle) (p : Paint) (alpha : Q)
  (amp : nat -> Q) (w : Z) (H : Q) : list Prim :=
  PStroke p alpha 2 (polyline amp w H false)
  :: (if style_eqb style ReflectedLine
      then [PStroke p (1 # 2) 2 (polyline amp w H true)]
      else []).

Definition is_line_style (style : WaveformStyle) : bool :=
  match style with
  | Line | GradientLine | ReflectedLine => true
  | _ => false
  end.

(** ** Agreement of two contexts

    Two runs of drawing code are compared on contexts that have the same
    size, global alpha and display list.  The attributes the code assigns
    before it reads them (fill style, stroke style, line width, current path)
    may differ at first; a [mask] says which of them are known to agree. *)







(** Drawing code that always returns. *)
Definition returns {A} (m : Draw A) : Prop :=
  forall c, exists a c', m c = (Returned a, c').

(** ** The invariant of the component *)

(** A [stop] event is pending only on a recorder that has stopped. *)
Definition job_wf (j : ExportJob) : Prop :=
  job_stop_pending j = true -> job_recorder j = Inactive.

Definition invariant (st : App) : Prop :=
  (analyserNode st = None \/ analyserNode st = Some createAnalyser_2048)
  /\ (audioBuffer st <> None -> analyserNode st <> None)
  /\ (jobs st <> [] -> analyserNode st <> None)
  /\ Forall job_wf (jobs st)
  /\ (active_jobs st <= (if isExporting st then 1 else 0))%nat.

(** An export in progress: a signal is loaded, the button was clicked and
    two animation frames have run, the second one second into the signal. *)
Definition exporting_App : App :=
  @run example_math
    [FileChosen true; DecodeSettled (Some example_buffer);
     SetWaveformStyle Line; ClickCreateVideo;
     AnimationFrame 0 0 0 []; AnimationFrame 0 1000 1000 []]
    initial_App.

(** ** The name of the downloaded file

    The download link of the component is named
    [`${fileName.split('.').slice(0, -1).join('.')}-waveform.${fileExtension}`]. *)

(** [s.split(sep)] for a separator of one character: never empty. *)
Fixpoint split_on (sep : Ascii.ascii) (s : string) : list string :=
  match s with
  | EmptyString => [EmptyString]
  | String ch rest =>
      if Ascii.eqb ch sep then EmptyString :: split_on sep rest
      else
        match split_on sep rest with
        | piece :: pieces => String ch piece :: pieces
        | [] => [String ch EmptyString]
        end
  end.

(** [l.join(sep)]. *)
Fixpoint join (sep : string) (l : list string) : string :=
  match l with
  | [] => EmptyString
  | [piece] => piece
  | piece :: rest => (piece ++ sep ++ join sep rest)%string
  end.

(** [const fileExtension = isTransparent ? 'webm' : 'webm']. *)
Definition fileExtension (isTransparent : bool) : string :=
  if isTransparent then "webm"%string else "webm"%string.

Definition download_name (fileName : string) (isTransparent : bool) : string :=
  (join "." (removelast (split_on "."%char fileName))
   ++ "-waveform." ++ fileExtension isTransparent)%string.

(** Whether a string contains the character. *)
Fixpoint contains (ch : Ascii.ascii) (s : string) : bool :=
  match s with
  | EmptyString => false
  | String c rest => Ascii.eqb c ch || contains ch rest
  end.

(** ** Auxiliary definitions of the further properties *)

(** The ordinate of a path operation's end point. *)
Definition op_y (op : PathOp) : Q :=
  match op with MoveTo _ y | LineTo _ y | Arc _ y _ _ _ => y end.

(** [op'] is [op] mirrored about the horizontal line at half of [H]. *)
Definition mirrored (H : Q) (op op' : PathOp) : Prop :=
  match op, op' with
  | MoveTo x y, MoveTo x' y' | LineTo x y, LineTo x' y' =>
      x' = x /\ y' == H - y
  | _, _ => False
  end.

(** A relation between the context before and after a piece of drawing
    code, whatever its outcome. *)
Definition keeps (R : Context2D -> Context2D -> Prop) {A} (m : Draw A)
  : Prop :=
  forall c, R c (snd (m c)).

(** The size of the canvas is kept and the display list only grows. *)
Definition grows (c c' : Context2D) : Prop :=
  width c' = width c /\ height c' = height c
  /\ exists more, display c' = display c ++ more.

(** The global alpha is kept. *)
Definition same_alpha (c c' : Context2D) : Prop :=
  globalAlpha c' = globalAlpha c.


(** Values that never decrease along the list. *)
Fixpoint nondecreasing (l : list Q) : Prop :=
  match l with
  | a :: (b :: _) as rest => a <= b /\ nondecreasing rest
  | _ => True
  end.

(** What else every state of the component satisfies: the canvas keeps its
    size and full opacity, and [isExporting] is true exactly while one
    recorder is active. *)
Definition invariant_canvas (st : App) : Prop :=
  exists ctx,
    canvasRef st = Some {| context2d := Some ctx |}
    /\ width ctx = CANVAS_WIDTH /\ height ctx = CANVAS_HEIGHT
    /\ globalAlpha ctx = 1.


(** * Properties *)

(** ** The fill/stroke resolver *)

Lemma nth_error_addColorStops (len : nat) (cs : list string) :
  forall (index k : nat),
    nth_error (addColorStops len index cs) k =
    option_map
      (fun color =>
         (inject_Z (Z.of_nat (index + k)) / inject_Z (Z.of_nat len - 1), color))
      (nth_error cs k).
Proof.
  induction cs as [|color rest IH]; intros index k.
  - destruct k; reflexivity.
  - destruct k as [|k]; cbn [addColorStops nth_error option_map].
    + now rewrite Nat.add_0_r.
    + rewrite IH. now rewrite Nat.add_succ_comm.
Qed.

Lemma length_addColorStops (len : nat) (cs : list string) (index : nat) :
  List.length (addColorStops len index cs) = List.length cs.
Proof.
  revert index; induction cs as [|color rest IH]; intros index;
    cbn [addColorStops List.length]; [reflexivity | now rewrite IH].
Qed.

Lemma offset_lt (len j k : nat) :
  (2 <= len)%nat -> (j < k)%nat ->
  inject_Z (Z.of_nat j) / inject_Z (Z.of_nat len - 1)
  < inject_Z (Z.of_nat k) / inject_Z (Z.of_nat len - 1).
Proof.
  intros Hlen Hjk. unfold Qdiv.
  apply Qmult_lt_compat_r.
  - apply Qinv_lt_0_compat. replace 0 with (inject_Z 0) by reflexivity.
    rewrite <- Zlt_Qlt. lia.
  - rewrite <- Zlt_Qlt. lia.
Qed.

(** C6.  A preset with exactly one stop resolves to that stop as a solid
    colour.  A preset with two or more stops resolves to a linear gradient
    that has one stop per colour, stop [k] being colour [k] at offset
    [k / (len - 1)], so that the offsets increase with the index. *)
Theorem getActiveStyle_solid_or_gradient
  (preset : ColorPreset) (y1 y2 : Q) (c : Context2D) :
  (forall color, colors preset = [color] ->
     getActiveStyle preset (Some y1) (Some y2) c
     = (Returned (Some (Color color)), c))
  /\
  ((2 <= List.length (colors preset))%nat ->
   exists stops,
     getActiveStyle preset (Some y1) (Some y2) c
     = (Returned (Some (Gradient (Linear 0 y1 0 y2 stops))), c)
     /\ List.length stops = List.length (colors preset)
     /\ (forall k color,
           nth_error (colors preset) k = Some color ->
           nth_error stops k
           = Some (inject_Z (Z.of_nat k)
                   / inject_Z (Z.of_nat (List.length (colors preset)) - 1),
                   color))
     /\ (forall j k oj cj ok ck,
           (j < k)%nat ->
           nth_error stops j = Some (oj, cj) ->
           nth_error stops k = Some (ok, ck) ->
           oj < ok)).
Proof.
  split.
  - intros color Hc. unfold getActiveStyle, colors0. rewrite Hc. reflexivity.
  - intros Hlen.
    exists (addColorStops (List.length (colors preset)) 0 (colors preset)).
    assert (Hnth : forall k color,
               nth_error (colors preset) k = Some color ->
               nth_error (addColorStops (List.length (colors preset)) 0
                            (colors preset)) k
               = Some (inject_Z (Z.of_nat k)
                       / inject_Z (Z.of_nat (List.length (colors preset)) - 1),
                       color)).
    { intros k color Hk. rewrite nth_error_addColorStops, Hk. reflexivity. }
    repeat split.
    + unfold getActiveStyle.
      destruct (Nat.ltb_spec 1 (List.length (colors preset))) as [_|Hle];
        [reflexivity | lia].
    + apply length_addColorStops.
    + exact Hnth.
    + intros j k oj cj ok ck Hjk Hj Hk.
      rewrite nth_error_addColorStops in Hj, Hk.
      destruct (nth_error (colors preset) j) as [colj|]; [|discriminate].
      destruct (nth_error (colors preset) k) as [colk|]; [|discriminate].
      cbn in Hj, Hk. injection Hj as <- _. injection Hk as <- _.
      now apply offset_lt.
Qed.

Lemma getActiveStyle_solid_or_gradient_witness :
  getActiveStyle Emerald (Some 360) (Some 720) (fresh 1280 720)
  = (Returned (Some (Color "#34d399")), fresh 1280 720)
  /\ exists stops,
       getActiveStyle Synthwave (Some 360) (Some 720) (fresh 1280 720)
       = (Returned (Some (Gradient (Linear 0 360 0 720 stops))),
          fresh 1280 720)
       /\ nth_error stops 1
          = Some (inject_Z 1 / inject_Z (2 - 1), "#6d28d9"%string).
Proof.
  split.
  - apply (proj1 (getActiveStyle_solid_or_gradient Emerald 360 720
                    (fresh 1280 720))).
    reflexivity.
  - destruct (proj2 (getActiveStyle_solid_or_gradient Synthwave 360 720
                       (fresh 1280 720)))
      as (stops & Hrun & _ & Hnth & _).
    + cbn. lia.
    + exists stops. split; [exact Hrun|].
      apply (Hnth 1%nat). reflexivity.
Defined.

(** ** Running drawing code *)

Lemma getActiveStyle_finite (preset : ColorPreset) (y1 y2 : Q) (c : Context2D) :
  getActiveStyle preset (Some y1) (Some y2) c
  = (Returned (resolved preset y1 y2), c).
Proof.
  unfold getActiveStyle, resolved.
  destruct (1 <? List.length (colors preset))%nat; reflexivity.
Qed.

Lemma display_with_fill v c : display (with_fill v c) = display c.
Proof. destruct v; reflexivity. Qed.

Lemma globalAlpha_with_fill v c : globalAlpha (with_fill v c) = globalAlpha c.
Proof. destruct v; reflexivity. Qed.

Lemma with_fill_set_display v d c :
  with_fill v (set_display d c) = set_display d (with_fill v c).
Proof. destruct v; reflexivity. Qed.

Lemma with_fill_idem v c : with_fill v (with_fill v c) = with_fill v c.
Proof. destruct v; reflexivity. Qed.

Lemma fillStyle_set_display d c : fillStyle (set_display d c) = fillStyle c.
Proof. reflexivity. Qed.

Lemma set_display_twice d1 d2 c :
  set_display d2 (set_display d1 c) = set_display d2 c.
Proof. reflexivity. Qed.

Lemma set_display_same c : set_display (display c) c = c.
Proof. destruct c; reflexivity. Qed.

(** A loop whose body resolves the same fill style and paints one rectangle
    per iteration paints the rectangles in index order. *)
Lemma for_from_rects (body : nat -> Draw unit) (v : option Paint)
  (rect : nat -> Paint -> Q -> Prim) (lo hi : nat) :
  (forall i c, (lo <= i < hi)%nat ->
     body i c =
     (Returned tt,
      set_display
        (display c ++ [rect i (fillStyle (with_fill v c)) (globalAlpha c)])
        (with_fill v c))) ->
  forall n i c,
    (lo <= i)%nat -> (i + n <= hi)%nat ->
    for_from i n body (with_fill v c) =
    (Returned tt,
     set_display
       (display c
        ++ map (fun j => rect j (fillStyle (with_fill v c)) (globalAlpha c))
               (seq i n))
       (with_fill v c)).
Proof.
  intros Hbody n; induction n as [|n IH]; intros i c Hlo Hhi.
  - cbn [for_from seq map]. rewrite app_nil_r.
    rewrite <- (display_with_fill v c) at 1. now rewrite set_display_same.
  - cbn [for_from seq map]. unfold bind at 1.
    rewrite Hbody by lia.
    rewrite with_fill_idem, display_with_fill, globalAlpha_with_fill.
    rewrite <- with_fill_set_display.
    rewrite IH by lia.
    rewrite with_fill_set_display.
    rewrite set_display_twice.
    cbn [display set_display globalAlpha].
    rewrite <- app_assoc. cbn [app].
    rewrite fillStyle_set_display.
    reflexivity.
Qed.

Lemma for_upto_rects (body : nat -> Draw unit) (v : option Paint)
  (rect : nat -> Paint -> Q -> Prim) (n : nat) :
  (forall i c, (0 <= i < S n)%nat ->
     body i c =
     (Returned tt,
      set_display
        (display c ++ [rect i (fillStyle (with_fill v c)) (globalAlpha c)])
        (with_fill v c))) ->
  forall c,
    for_upto (S n) body c =
    (Returned tt,
     set_display
       (display c
        ++ map (fun j => rect j (fillStyle (with_fill v c)) (globalAlpha c))
               (seq 0 (S n)))
       (with_fill v c)).
Proof.
  intros Hbody c. unfold for_upto. cbn [for_from]. unfold bind at 1.
  rewrite Hbody by lia. rewrite <- with_fill_set_display.
  rewrite (for_from_rects body v rect (lo := 0) (hi := S n) Hbody)
    by lia.
  rewrite with_fill_set_display, set_display_twice.
  cbn [display set_display globalAlpha seq map].
  rewrite <- app_assoc. reflexivity.
Qed.

Lemma clearRect_whole (c : Context2D) :
  clearRect 0 0 (inject_Z (width c)) (inject_Z (height c)) c
  = (Returned tt, set_display [] c).
Proof.
  unfold clearRect, modify.
  rewrite !(proj2 (Qeq_bool_iff _ _) (Qeq_refl _)). reflexivity.
Qed.

Lemma barHeight_in_range (style : WaveformStyle) (fd : list Byte.byte) (H : Q) (i : nat) :
  (i < List.length fd)%nat ->
  barHeight fd H i
  = Some (inject_Z (u8 (nth i fd Byte.x00)) / 255 * (inject_Z (u8 (nth i fd Byte.x00)) / 255) * H).
Proof.
  intros Hi. unfold barHeight, shaped, bin, typed_get_nat.
  rewrite (nth_error_nth' fd Byte.x00 Hi). reflexivity.
Qed.

Lemma case_Bars_128 (an : option AnalyserNode) (style : WaveformStyle)
  (preset : ColorPreset) (fd : list Byte.byte) (W H : Q) (c : Context2D) :
  style = SymmetricBars \/ style = BottomBars ->
  (128 <= List.length fd)%nat ->
  case_Bars an style preset (Some fd) W H c =
  (Returned tt,
   set_display
     (display c
      ++ map (fun i => bar128_rect (style_eqb style BottomBars) W H
                         (u8 (nth i fd Byte.x00)) i
                         (fillStyle (with_fill (resolved preset (H / 2) H) c))
                         (globalAlpha c))
             (seq 0 128))
     (with_fill (resolved preset (H / 2) H) c)).
Proof.
  intros Hstyle Hlen.
  assert (Hn : barCount an style = ret 128)
    by (destruct Hstyle as [-> | ->]; reflexivity).
  assert (Hgap : barGap style = 4)
    by (destruct Hstyle as [-> | ->]; reflexivity).
  unfold case_Bars. rewrite Hn, Hgap. unfold bind at 1, ret at 1.
  change (iterations 128) with 128%nat.
  apply (for_upto_rects _ (resolved preset (H / 2) H)
           (fun i => bar128_rect (style_eqb style BottomBars) W H
                       (u8 (nth i fd Byte.x00)) i)).
  intros i c0 Hi. unfold bind at 1. rewrite getActiveStyle_finite.
  rewrite (barHeight_in_range style) by lia.
  destruct (resolved preset (H / 2) H), (style_eqb style BottomBars);
    reflexivity.
Qed.

Lemma case_Bars_Equalizer (a : AnalyserNode) (preset : ColorPreset)
  (fd : list Byte.byte) (W H : Q) (c : Context2D) (k : nat) :
  let n := inject_Z (frequencyBinCount a) / 4 in
  Num.Qis_zero n = false ->
  iterations n = S k ->
  (S k <= List.length fd)%nat ->
  case_Bars (Some a) Equalizer preset (Some fd) W H c =
  (Returned tt,
   set_display
     (display c
      ++ map (fun i => centred_bar_rect n 1 W H (u8 (nth i fd Byte.x00)) i
                         (fillStyle (with_fill (resolved preset (H / 2) H) c))
                         (globalAlpha c))
             (seq 0 (S k)))
     (with_fill (resolved preset (H / 2) H) c)).
Proof.
  intros n Hz Hit Hlen.
  unfold case_Bars, barCount. cbn [style_eqb]. unfold bind at 1, ret at 1.
  fold n. rewrite Hit.
  apply (for_upto_rects _ (resolved preset (H / 2) H)
           (fun i => centred_bar_rect n 1 W H (u8 (nth i fd Byte.x00)) i)).
  intros i c0 Hi. unfold bind at 1. rewrite getActiveStyle_finite.
  rewrite (barHeight_in_range Equalizer) by lia.
  unfold Num.div, Num.fin. rewrite Hz.
  destruct (resolved preset (H / 2) H); reflexivity.
Qed.

Section Renderer.

Context {M : MathLib}.

(** [drawWaveform] is its prologue followed by the case of the style. *)
Lemma drawWaveform_cases (an : option AnalyserNode) (buf : AudioBuffer)
  (t : Q) (style : WaveformStyle) (preset : ColorPreset) (transp : bool)
  (fd : option (list Byte.byte)) (c : Context2D) :
  drawWaveform an buf t style preset transp fd c =
  let W := inject_Z (width c) in
  let H := inject_Z (height c) in
  match style with
  | Equalizer | SymmetricBars | BottomBars => case_Bars an style preset fd W H
  | Pulse => case_Pulse preset fd W H
  | Circle => case_Circle preset fd W H
  | ReflectedLine | GradientLine | Line =>
      case_Lines style preset (channelData0 buf)
                 (Qfloor (t * sampleRate buf)) W H
  end (cleared transp c).
Proof.
  unfold drawWaveform.
  cbv beta iota delta [bind gets].
  rewrite clearRect_whole.
  destruct transp; reflexivity.
Qed.

Lemma cleared_facts (transp : bool) (c : Context2D) :
  display (cleared transp c)
  = background transp (globalAlpha c)
      (inject_Z (width c)) (inject_Z (height c))
  /\ globalAlpha (cleared transp c) = globalAlpha c
  /\ width (cleared transp c) = width c
  /\ height (cleared transp c) = height c.
Proof. destruct transp; repeat split. Qed.

Lemma rect_heights_app (a b : list Prim) :
  rect_heights (a ++ b) = rect_heights a ++ rect_heights b.
Proof. unfold rect_heights. apply flat_map_app. Qed.

Lemma rect_heights_bars (bottom : bool) (W H : Q) (fd : list Byte.byte) (p : Paint)
  (alpha : Q) (l : list nat) :
  rect_heights
    (map (fun i => bar128_rect bottom W H (u8 (nth i fd Byte.x00)) i p alpha) l)
  = map (fun i => inject_Z (u8 (nth i fd Byte.x00)) / 255
                  * (inject_Z (u8 (nth i fd Byte.x00)) / 255) * H) l.
Proof.
  induction l as [|i l IH]; [reflexivity|].
  cbn [map]. change (rect_heights (?x :: ?r)) with
    (rect_heights [x] ++ rect_heights r).
  rewrite IH. reflexivity.
Qed.

(** C4, as the code has it.  For SymmetricBars and BottomBars over a snapshot
    of at least 128 bins, the frame is the background followed by 128
    rectangles in index order, and bar [i] shows bin [i] of the snapshot:
    its height is [(freqData[i] / 255)^2 * height].  The bars read the first
    128 bins; the snapshot is not resampled. *)
Theorem bars128_show_leading_bins (an : option AnalyserNode)
  (buf : AudioBuffer) (t : Q) (style : WaveformStyle) (preset : ColorPreset)
  (transp : bool) (fd : list Byte.byte) (c : Context2D) :
  style = SymmetricBars \/ style = BottomBars ->
  (128 <= List.length fd)%nat ->
  let W := inject_Z (width c) in
  let H := inject_Z (height c) in
  exists c',
    drawWaveform an buf t style preset transp (Some fd) c = (Returned tt, c')
    /\ display c'
       = background transp (globalAlpha c) W H
         ++ map (fun i => bar128_rect (style_eqb style BottomBars) W H
                            (u8 (nth i fd Byte.x00)) i (fillStyle c') (globalAlpha c))
                (seq 0 128)
    /\ rect_heights (display c')
       = rect_heights (background transp (globalAlpha c) W H)
         ++ map (fun i => inject_Z (u8 (nth i fd Byte.x00)) / 255
                          * (inject_Z (u8 (nth i fd Byte.x00)) / 255) * H)
                (seq 0 128).
Proof.
  intros Hstyle Hlen W H.
  destruct (cleared_facts transp c) as (Hd & Ha & _ & _).
  pose proof (case_Bars_128 an preset fd W H (cleared transp c) Hstyle Hlen)
    as Hbars.
  assert (Hrun : drawWaveform an buf t style preset transp (Some fd) c
                 = case_Bars an style preset (Some fd) W H (cleared transp c))
    by (rewrite drawWaveform_cases; destruct Hstyle as [-> | ->]; reflexivity).
  rewrite Hbars in Hrun.
  eexists. split; [exact Hrun|]. split.
  - cbn [display set_display fillStyle]. rewrite Hd, Ha. reflexivity.
  - cbn [display set_display]. rewrite Hd, Ha.
    rewrite rect_heights_app, rect_heights_bars. reflexivity.
Qed.

End Renderer.

Lemma bars128_show_leading_bins_witness :
  exists c',
    @drawWaveform example_math None example_buffer 1 SymmetricBars Emerald
      true (Some snapshot_bin8) (fresh 1280 720) = (Returned tt, c')
    /\ rect_heights (display c')
       = rect_heights (background true 1 1280 720)
         ++ map (fun i => inject_Z (u8 (nth i snapshot_bin8 Byte.x00)) / 255
                          * (inject_Z (u8 (nth i snapshot_bin8 Byte.x00)) / 255)
                          * inject_Z 720)
                (seq 0 128).
Proof.
  destruct (@bars128_show_leading_bins example_math None example_buffer 1
              SymmetricBars Emerald true snapshot_bin8 (fresh 1280 720))
    as (c' & Hrun & _ & Hh).
  - left; reflexivity.
  - vm_compute. lia.
  - exists c'. split; [exact Hrun | exact Hh].
Defined.

(** C4, as the specification words it, fails: with a snapshot of 1024 bins
    that is silent except for bin 8, resampling would make bar 1 read bin
    [floor(1 / 128 * 1024) = 8] and be as tall as the canvas, while the
    frame's bar 1 reads bin 1 and has height 0. *)
Lemma bars128_not_resampled :
  let frame :=
    frame_of (@drawWaveform example_math None example_buffer 1 SymmetricBars
                Emerald true (Some snapshot_bin8) (fresh 1280 720)) in
  exists h_code h_spec,
    nth_error (rect_heights frame) 1 = Some h_code
    /\ spec_resampled_bar_height snapshot_bin8 128 720 1 = Some h_spec
    /\ h_code == 0 /\ h_spec == 720 /\ ~ h_code == h_spec.
Proof.
  cbv zeta. eexists. eexists.
  split; [vm_compute; reflexivity|].
  split; [vm_compute; reflexivity|].
  repeat split; try reflexivity.
  intros H. vm_compute in H. discriminate H.
Qed.

(** ** The Pulse style *)

Lemma skipn_cons_nth {A} (d : A) (l : list A) :
  forall k, (k < List.length l)%nat ->
            skipn k l = nth k l d :: skipn (S k) l.
Proof.
  induction l as [|x l IH]; intros k Hk; cbn [List.length] in Hk; [lia|].
  destruct k as [|k]; [reflexivity|].
  cbn [skipn nth]. rewrite (IH k) by lia. reflexivity.
Qed.

Lemma bin_in_range (fd : list Byte.byte) (i : nat) :
  (i < List.length fd)%nat -> bin fd i = Some (inject_Z (u8 (nth i fd Byte.x00))).
Proof.
  intros Hi. unfold bin, typed_get_nat.
  now rewrite (nth_error_nth' fd Byte.x00 Hi).
Qed.

Lemma bass_fold (fd : list Byte.byte) :
  forall n k a,
    (k + n <= List.length fd)%nat ->
    exists s,
      fold_left (fun acc i => (acc + bin fd i)%js) (seq k n) (Some a) = Some s
      /\ s == a + inject_Z (Zsum (firstn n (skipn k fd))).
Proof.
  induction n as [|n IH]; intros k a Hk.
  - exists a. split; [reflexivity|]. cbn. ring.
  - cbn [seq fold_left]. rewrite bin_in_range by lia.
    destruct (IH (S k) (a + inject_Z (u8 (nth k fd Byte.x00))) ltac:(lia))
      as (s & Hs & Heq).
    exists s. split; [exact Hs|].
    rewrite Heq, (skipn_cons_nth Byte.x00 fd (k := k)) by lia.
    cbn [firstn Zsum fold_right]. fold (Zsum (firstn n (skipn (S k) fd))).
    rewrite inject_Z_plus. ring.
Qed.

Lemma bassFrequencies_le (fd : list Byte.byte) :
  (bassFrequencies fd <= List.length fd)%nat.
Proof.
  unfold bassFrequencies.
  pose proof (Nat.div_mod_eq (List.length fd) 10). lia.
Qed.

Lemma bassFrequencies_pos (fd : list Byte.byte) :
  (10 <= List.length fd)%nat -> (0 < bassFrequencies fd)%nat.
Proof.
  unfold bassFrequencies. intros H.
  pose proof (Nat.div_mod_eq (List.length fd) 10).
  pose proof (Nat.mod_upper_bound (List.length fd) 10). lia.
Qed.

Lemma Qis_zero_ofnat (n : nat) :
  (0 < n)%nat -> Num.Qis_zero (inject_Z (Z.of_nat n)) = false.
Proof.
  intros Hn. unfold Num.Qis_zero.
  destruct (Qeq_bool (inject_Z (Z.of_nat n)) 0) eqn:E; [|reflexivity].
  apply Qeq_bool_iff in E. unfold Qeq in E. cbn in E. lia.
Qed.

Lemma inject_nat_nonzero (n : nat) :
  (0 < n)%nat -> ~ inject_Z (Z.of_nat n) == 0.
Proof. intros Hn E. unfold Qeq in E. cbn in E. lia. Qed.

Lemma Zsum_all_255 (l : list Byte.byte) :
  (forall v, In v l -> v = Byte.xff) ->
  Zsum l = (255 * Z.of_nat (List.length l))%Z.
Proof.
  induction l as [|v l IH]; intros Hall; [reflexivity|].
  cbn [Zsum fold_right List.length]. fold (Zsum l).
  rewrite IH by (intros w Hw; apply Hall; now right).
  rewrite (Hall v) by now left. change (u8 Byte.xff) with 255%Z. lia.
Qed.

(** The radius of the pulsing circle. *)
Lemma pulseRadius_mean (fd : list Byte.byte) (H : Q) :
  (10 <= List.length fd)%nat ->
  let n := bassFrequencies fd in
  let lows := firstn n fd in
  exists r,
    pulseRadius fd H = Some r
    /\ r == H * (1 # 10)
            + inject_Z (Zsum lows) / inject_Z (Z.of_nat n) / 255 * H * (1 # 2)
    /\ ((forall v, In v lows -> v = Byte.xff) -> r == (6 # 10) * H).
Proof.
  intros Hlen n lows.
  pose proof (bassFrequencies_le fd) as Hle.
  pose proof (bassFrequencies_pos fd Hlen) as Hpos.
  destruct (bass_fold fd (bassFrequencies fd) 0 0 Hle)
    as (s & Hs & Heq).
  cbn [skipn] in Heq. fold n in Heq. fold lows in Heq.
  assert (Hr : pulseRadius fd H
               = Some (baseRadius H
                       + s / inject_Z (Z.of_nat n) / 255 * H * (1 # 2))).
  { unfold pulseRadius, bassAvg, bassSum.
    change (Num.fin 0) with (Some 0). rewrite Hs.
    unfold Num.div at 2, Num.ofZ. rewrite (Qis_zero_ofnat Hpos).
    reflexivity. }
  eexists. split; [exact Hr|].
  assert (Hn0 : ~ inject_Z (Z.of_nat n) == 0)
    by (apply inject_nat_nonzero; exact Hpos).
  split.
  - unfold baseRadius. rewrite Heq. field. exact Hn0.
  - intros Hall. unfold baseRadius. rewrite Heq.
    rewrite (Zsum_all_255 lows Hall).
    assert (Hl : List.length lows = n)
      by (unfold lows; apply firstn_length_le; exact Hle).
    rewrite Hl, inject_Z_mult. field. exact Hn0.
Qed.


Section Pulse.

Context {M : MathLib}.


End Pulse.


(** ** The line styles *)

Lemma set_path_twice p1 p2 c : set_path p2 (set_path p1 c) = set_path p2 c.
Proof. reflexivity. Qed.

Lemma set_path_same c : set_path (path c) c = c.
Proof. destruct c; reflexivity. Qed.

(** A loop whose body adds one operation to the current path. *)
Lemma for_from_path (body : nat -> Draw unit) (op : nat -> PathOp) :
  (forall i c, body i c = (Returned tt, set_path (path c ++ [op i]) c)) ->
  forall n i c,
    for_from i n body c
    = (Returned tt, set_path (path c ++ map op (seq i n)) c).
Proof.
  intros Hbody n; induction n as [|n IH]; intros i c.
  - cbn [for_from seq map]. now rewrite app_nil_r, set_path_same.
  - cbn [for_from seq map]. unfold bind at 1. rewrite Hbody, IH.
    rewrite set_path_twice. cbn [path set_path].
    now rewrite <- app_assoc.
Qed.

Lemma drawLine_run (buf : AudioBuffer) (t : Q) (w : Z) (H : Q)
  (reflection : bool) (c : Context2D) :
  let poly := polyline (column_amplitude buf t w) w H reflection in
  drawLine (channelData0 buf) (Qfloor (t * sampleRate buf))
           (inject_Z w) H reflection c
  = (Returned tt,
     set_display
       (display c
        ++ [PStroke (strokeStyle c) (globalAlpha c) (lineWidth c) poly])
       (set_path poly c)).
Proof.
  intros poly. unfold drawLine. rewrite Qfloor_Z.
  unfold bind at 1, beginPath, modify. unfold bind at 1, for_upto.
  rewrite (@for_from_path _
             (fun i =>
                let y := line_y (channelData0 buf)
                           (startSample (Qfloor (t * sampleRate buf)) w)
                           H reflection i in
                if Nat.eqb i 0 then MoveTo (inject_Z (Z.of_nat i)) y
                else LineTo (inject_Z (Z.of_nat i)) y)).
  - reflexivity.
  - intros i c0. destruct (Nat.eqb i 0); reflexivity.
Qed.

Lemma line_strokeStyle_run (style : WaveformStyle) (preset : ColorPreset)
  (W : Q) (c : Context2D) :
  line_strokeStyle style preset W c
  = (Returned (line_style_value style preset W), c).
Proof.
  unfold line_strokeStyle, line_style_value.
  destruct (style_eqb style Line); [reflexivity|].
  destruct (1 <? List.length (colors preset))%nat; reflexivity.
Qed.

Lemma case_Lines_run (style : WaveformStyle) (preset : ColorPreset)
  (buf : AudioBuffer) (t : Q) (w : Z) (H : Q) (c : Context2D) :
  exists c',
    case_Lines style preset (channelData0 buf) (Qfloor (t * sampleRate buf))
               (inject_Z w) H c = (Returned tt, c')
    /\ display c'
       = display c
         ++ line_strokes style
              (strokeStyle (with_stroke
                              (line_style_value style preset (inject_Z w)) c))
              (globalAlpha c) (column_amplitude buf t w) w H.
Proof.
  unfold case_Lines. unfold bind at 1. rewrite line_strokeStyle_run.
  unfold bind at 1, set_lineWidth, modify.
  unfold bind at 1, set_strokeStyle, modify.
  unfold bind at 1. rewrite drawLine_run. unfold line_strokes.
  destruct (style_eqb style ReflectedLine).
  - unfold bind at 1, set_globalAlpha, modify.
    unfold bind at 1. rewrite drawLine_run.
    eexists; split; [reflexivity|].
    cbn [display set_display set_path]. rewrite <- app_assoc.
    destruct (line_style_value style preset (inject_Z w)); reflexivity.
  - eexists; split; [reflexivity|].
    destruct (line_style_value style preset (inject_Z w)); reflexivity.
Qed.

Lemma sample_or_0_outside (data : list Q) (ix : Q) :
  ix < 0 \/ inject_Z (Z.of_nat (List.length data)) <= ix ->
  sample_or_0 data ix = 0.
Proof.
  intros Hout. unfold sample_or_0, typed_get.
  destruct (Qeq_bool ix (inject_Z (Qfloor ix))) eqn:Eint; [|reflexivity].
  destruct (0 <=? Qfloor ix)%Z eqn:Epos; [|reflexivity].
  cbn [andb]. apply Qeq_bool_iff in Eint. apply Z.leb_le in Epos.
  destruct Hout as [Hneg | Hpast].
  - exfalso. rewrite Eint in Hneg.
    change 0 with (inject_Z 0) in Hneg. rewrite <- Zlt_Qlt in Hneg. lia.
  - rewrite Eint in Hpast. rewrite <- Zle_Qle in Hpast.
    assert (Hnone : nth_error data (Z.to_nat (Qfloor ix)) = None)
      by (apply nth_error_None; lia).
    now rewrite Hnone.
Qed.

Lemma sample_or_0_inside (data : list Q) (ix : Q) (k : nat) :
  ix == inject_Z (Z.of_nat k) -> (k < List.length data)%nat ->
  sample_or_0 data ix = nth k data 0.
Proof.
  intros Hix Hk. unfold sample_or_0, typed_get.
  assert (Hfl : Qfloor ix = Z.of_nat k)
    by (rewrite Hix; apply Qfloor_Z).
  rewrite Hfl.
  rewrite (proj2 (Qeq_bool_iff _ _) Hix).
  rewrite (proj2 (Z.leb_le _ _) (Nat2Z.is_nonneg k)).
  cbn [andb]. rewrite Nat2Z.id.
  now rewrite (nth_error_nth' data 0 Hk).
Qed.

Section Lines.

Context {M : MathLib}.

Lemma drawWaveform_lines (an : option AnalyserNode) (buf : AudioBuffer)
  (t : Q) (style : WaveformStyle) (preset : ColorPreset) (transp : bool)
  (fd : option (list Byte.byte)) (c : Context2D) :
  is_line_style style = true ->
  exists c',
    drawWaveform an buf t style preset transp fd c = (Returned tt, c')
    /\ display c'
       = background transp (globalAlpha c)
           (inject_Z (width c)) (inject_Z (height c))
         ++ line_strokes style
              (strokeStyle
                 (with_stroke
                    (line_style_value style preset (inject_Z (width c)))
                    (cleared transp c)))
              (globalAlpha c) (column_amplitude buf t (width c))
              (width c) (inject_Z (height c)).
Proof.
  intros Hstyle.
  destruct (cleared_facts transp c) as (Hd & Ha & _ & _).
  destruct (case_Lines_run style preset buf t (width c)
              (inject_Z (height c)) (cleared transp c))
    as (c' & Hrun & Hdisp).
  exists c'. split.
  - rewrite drawWaveform_cases. cbv zeta.
    destruct style; try discriminate Hstyle; exact Hrun.
  - rewrite Hdisp, Hd, Ha. reflexivity.
Qed.

(** C8.  In the Line, GradientLine and ReflectedLine styles a sample index
    before 0 or at or past the end of the signal reads as amplitude 0, an
    index inside the signal reads the sample, and rendering at any position
    returns without an exception: the frame is the background and the
    polyline (twice for ReflectedLine) through the amplitudes of the window's
    columns. *)
Theorem lines_outside_signal_is_silence (an : option AnalyserNode)
  (buf : AudioBuffer) (t : Q) (style : WaveformStyle) (preset : ColorPreset)
  (transp : bool) (fd : option (list Byte.byte)) (c : Context2D) :
  is_line_style style = true ->
  let data := channelData0 buf in
  (forall ix, ix < 0 \/ inject_Z (Z.of_nat (List.length data)) <= ix ->
              sample_or_0 data ix = 0)
  /\ (forall ix k, ix == inject_Z (Z.of_nat k) -> (k < List.length data)%nat ->
                   sample_or_0 data ix = nth k data 0)
  /\ exists p c',
       drawWaveform an buf t style preset transp fd c = (Returned tt, c')
       /\ display c'
          = background transp (globalAlpha c)
              (inject_Z (width c)) (inject_Z (height c))
            ++ line_strokes style p (globalAlpha c)
                 (fun i => sample_or_0 data
                    (startSample (Qfloor (t * sampleRate buf)) (width c)
                     + inject_Z (Z.of_nat i)))
                 (width c) (inject_Z (height c)).
Proof.
  intros Hstyle data. split; [|split].
  - apply sample_or_0_outside.
  - apply sample_or_0_inside.
  - destruct (@drawWaveform_lines an buf t style preset transp fd c Hstyle)
      as (c' & Hrun & Hdisp).
    eexists. exists c'. split; [exact Hrun | exact Hdisp].
Qed.

(** C9.  In the Line style the polyline is stroked with the preset's first
    colour as a solid colour, whatever the number of stops (with no colour at
    all the assignment is ignored and the previous stroke style stays).
    GradientLine and ReflectedLine stroke with a horizontal gradient as soon
    as the preset has two stops. *)
Theorem line_stroke_is_first_colour (an : option AnalyserNode)
  (buf : AudioBuffer) (t : Q) (preset : ColorPreset) (transp : bool)
  (fd : option (list Byte.byte)) (c : Context2D) :
  let W := inject_Z (width c) in
  let H := inject_Z (height c) in
  let amp := column_amplitude buf t (width c) in
  let first_colour :=
    match colors0 preset with
    | Some color => Color color
    | None => strokeStyle c
    end in
  (exists c',
     drawWaveform an buf t Line preset transp fd c = (Returned tt, c')
     /\ display c'
        = background transp (globalAlpha c) W H
          ++ [PStroke first_colour (globalAlpha c) 2
                (polyline amp (width c) H false)])
  /\ (forall style,
        style = GradientLine \/ style = ReflectedLine ->
        (2 <= List.length (colors preset))%nat ->
        exists stops c',
          drawWaveform an buf t style preset transp fd c = (Returned tt, c')
          /\ display c'
             = background transp (globalAlpha c) W H
               ++ line_strokes style (Gradient (Linear 0 0 W 0 stops))
                    (globalAlpha c) amp (width c) H).
Proof.
  intros W H amp first_colour. split.
  - destruct (@drawWaveform_lines an buf t Line preset transp fd c eq_refl)
      as (c' & Hrun & Hdisp).
    exists c'. split; [exact Hrun|]. rewrite Hdisp.
    unfold line_strokes, line_style_value, first_colour.
    cbn [style_eqb]. destruct (colors0 preset), transp; reflexivity.
  - intros style Hstyle Hlen.
    assert (Hl : is_line_style style = true)
      by (destruct Hstyle as [-> | ->]; reflexivity).
    destruct (@drawWaveform_lines an buf t style preset transp fd c Hl)
      as (c' & Hrun & Hdisp).
    eexists. exists c'. split; [exact Hrun|]. rewrite Hdisp.
    unfold line_style_value.
    replace (style_eqb style Line) with false
      by (destruct Hstyle as [-> | ->]; reflexivity).
    destruct (Nat.ltb_spec 1 (List.length (colors preset))) as [_|Hle];
      [|lia].
    reflexivity.
Qed.

End Lines.

(** ** Uniformity of drawing code *)















(** *** The canvas operations *)






















(** *** The cases of [drawWaveform] *)

Section Uniform.

Context {M : MathLib}.

Variable preset : ColorPreset.
Variable color0 : string.
Variable rest : list string.
Hypothesis Hcolors : colors preset = color0 :: rest.









End Uniform.

(** ** Purity of the renderer *)

Section Purity.

Context {M : MathLib}.





End Purity.



Lemma lines_outside_signal_is_silence_witness :
  sample_or_0 (channelData0 example_buffer) (inject_Z 6) = 0
  /\ sample_or_0 (channelData0 example_buffer) (inject_Z 5) = 1
  /\ exists p c',
       @drawWaveform example_math None example_buffer 9 ReflectedLine
         Synthwave false None (fresh 4 8) = (Returned tt, c')
       /\ display c'
          = background false 1 (inject_Z 4) (inject_Z 8)
            ++ line_strokes ReflectedLine p 1
                 (fun i => sample_or_0 (channelData0 example_buffer)
                    (startSample (Qfloor (9 * sampleRate example_buffer)) 4
                     + inject_Z (Z.of_nat i)))
                 4 (inject_Z 8).
Proof.
  destruct (@lines_outside_signal_is_silence example_math None example_buffer
              9 ReflectedLine Synthwave false None (fresh 4 8) eq_refl)
    as (Hout & Hin & Hrun).
  split; [|split].
  - apply Hout. right. vm_compute. discriminate.
  - apply (Hin (inject_Z 5) 5%nat); [reflexivity | vm_compute; lia].
  - exact Hrun.
Defined.

Lemma line_stroke_is_first_colour_witness :
  (exists c',
     @drawWaveform example_math None example_buffer 1 Line Synthwave true
       None (fresh 4 8) = (Returned tt, c')
     /\ display c'
        = [PStroke (Color "#ec4899") 1 2
             (polyline (column_amplitude example_buffer 1 4) 4
                (inject_Z 8) false)])
  /\ (exists stops c',
        @drawWaveform example_math None example_buffer 1 GradientLine
          Synthwave true None (fresh 4 8) = (Returned tt, c')
        /\ display c'
           = line_strokes GradientLine
               (Gradient (Linear 0 0 (inject_Z 4) 0 stops)) 1
               (column_amplitude example_buffer 1 4) 4 (inject_Z 8)).
Proof.
  destruct (@line_stroke_is_first_colour example_math None example_buffer 1
              Synthwave true None (fresh 4 8)) as (Hline & Hgrad).
  split.
  - exact Hline.
  - apply (Hgrad GradientLine); [left; reflexivity | cbn; lia].
Defined.

(** ** Drawing code that cannot throw *)

Lemma returns_ret {A} (a : A) : returns (ret a).
Proof. intros c. now exists a, c. Qed.

Lemma returns_bind {A B} (m : Draw A) (k : A -> Draw B) :
  returns m -> (forall a, returns (k a)) -> returns (bind m k).
Proof.
  intros Hm Hk c. unfold bind.
  destruct (Hm c) as (a & c' & ->). apply Hk.
Qed.

Lemma returns_gets {A} (f : Context2D -> A) : returns (gets f).
Proof. intros c. now exists (f c), c. Qed.

Lemma returns_modify (f : Context2D -> Context2D) : returns (modify f).
Proof. intros c. now exists tt, (f c). Qed.

Lemma returns_for_from (body : nat -> Draw unit) :
  (forall i, returns (body i)) -> forall n i, returns (for_from i n body).
Proof.
  intros Hbody n; induction n as [|n IH]; intros i; cbn [for_from].
  - apply returns_ret.
  - apply returns_bind; [apply Hbody | intros _; apply IH].
Qed.

Lemma returns_fillRect (x y w h : number) : returns (fillRect x y w h).
Proof.
  destruct x, y, w, h; cbn [fillRect]; try apply returns_ret.
  repeat (apply returns_bind; [apply returns_gets | intro]).
  apply returns_modify.
Qed.

Lemma returns_moveTo (x y : number) : returns (moveTo x y).
Proof.
  destruct x, y; cbn [moveTo]; apply returns_ret || apply returns_modify.
Qed.

Lemma returns_lineTo (x y : number) : returns (lineTo x y).
Proof.
  destruct x, y; cbn [lineTo]; apply returns_ret || apply returns_modify.
Qed.

Lemma returns_arc (x y r a0 a1 : number) : returns (arc x y r a0 a1).
Proof.
  destruct x, y, r, a0, a1; cbn [arc];
    apply returns_ret || apply returns_modify.
Qed.

Lemma returns_fill : returns fill.
Proof.
  repeat (apply returns_bind; [apply returns_gets | intro]).
  apply returns_modify.
Qed.

Lemma returns_stroke : returns stroke.
Proof.
  repeat (apply returns_bind; [apply returns_gets | intro]).
  apply returns_modify.
Qed.

Lemma returns_getActiveStyle (preset : ColorPreset) (y1 y2 : Q) :
  returns (getActiveStyle preset (Some y1) (Some y2)).
Proof. intros c. rewrite getActiveStyle_finite. eauto. Qed.

Ltac ret_step :=
  lazymatch goal with
  | |- returns (bind _ _) => apply returns_bind; [ | intro ]
  | |- returns (ret _) => apply returns_ret
  | |- returns (getActiveStyle _ _ _) => apply returns_getActiveStyle
  | |- returns (fillRect _ _ _ _) => apply returns_fillRect
  | |- returns (moveTo _ _) => apply returns_moveTo
  | |- returns (lineTo _ _) => apply returns_lineTo
  | |- returns (arc _ _ _ _ _) => apply returns_arc
  | |- returns fill => apply returns_fill
  | |- returns CanvasAPI.stroke => apply returns_stroke
  | |- returns (gets _) => apply returns_gets
  | |- returns (modify _) => apply returns_modify
  | |- returns (set_fillStyle _) => apply returns_modify
  | |- returns (set_strokeStyle _) => apply returns_modify
  | |- returns (set_lineWidth _) => apply returns_modify
  | |- returns (set_globalAlpha _) => apply returns_modify
  | |- returns (clearRect _ _ _ _) => apply returns_modify
  | |- returns beginPath => apply returns_modify
  | |- returns (for_upto _ _) => apply returns_for_from; intro
  | |- returns (if ?b then _ else _) => destruct b
  | |- returns _ => solve [intro; do 2 eexists; reflexivity]
  end.

Ltac ret_auto := repeat ret_step.

Section Safety.

Context {M : MathLib}.

(** With a session analyser and snapshots of at least ten bins,
    [drawWaveform] returns for every style. *)
Lemma drawWaveform_returns (a : AnalyserNode) (buf : AudioBuffer) (t : Q)
  (style : WaveformStyle) (preset : ColorPreset) (transp : bool)
  (fd : option (list Byte.byte)) :
  (forall l, fd = Some l -> (10 <= List.length l)%nat) ->
  returns (drawWaveform (Some a) buf t style preset transp fd).
Proof.
  intros Hfd. unfold drawWaveform.
  ret_step; [ret_step|]. ret_step; [ret_step|]. ret_step; [ret_step|].
  ret_step; [ret_auto|].
  destruct style.
  - unfold case_Lines, line_strokeStyle, drawLine. ret_auto.
  - unfold case_Lines, line_strokeStyle, drawLine. ret_auto.
  - unfold case_Lines, line_strokeStyle, drawLine. ret_auto.
  - unfold case_Bars, barCount. destruct fd; ret_auto.
  - unfold case_Bars, barCount. destruct fd; ret_auto.
  - unfold case_Bars, barCount. destruct fd; ret_auto.
  - unfold case_Circle. destruct fd; ret_auto.
  - unfold case_Pulse. destruct fd as [l|]; [|ret_auto].
    lazymatch goal with
    | |- context [pulseRadius l ?H] =>
        destruct (pulseRadius_mean l H (Hfd l eq_refl)) as (r & Hr & _);
        rewrite Hr
    end.
    ret_auto.
Qed.

End Safety.

(** ** The recording loop *)

Lemma Qltb_lt (a b : Q) : Qltb a b = true <-> a < b.
Proof.
  unfold Qltb. rewrite negb_true_iff. split.
  - intros H. apply Qnot_le_lt. intros Hle.
    apply Qle_bool_iff in Hle. congruence.
  - intros H. destruct (Qle_bool b a) eqn:E; [|reflexivity].
    apply Qle_bool_iff in E. exfalso. exact (Qlt_not_le _ _ H E).
Qed.

Lemma Qltb_ge (a b : Q) : Qltb a b = false <-> b <= a.
Proof.
  unfold Qltb. rewrite negb_false_iff. apply Qle_bool_iff.
Qed.

Lemma length_getByteFrequencyData (a : AnalyserNode)
  (spectrum : list Byte.byte) :
  List.length (getByteFrequencyData a spectrum)
  = Z.to_nat (frequencyBinCount a).
Proof.
  unfold getByteFrequencyData.
  rewrite length_firstn, length_app, repeat_length. lia.
Qed.

Lemma Qis_zero_pos (q : Q) : 0 < q -> Num.Qis_zero q = false.
Proof.
  intros Hq. unfold Num.Qis_zero.
  destruct (Qeq_bool q 0) eqn:E; [|reflexivity].
  apply Qeq_bool_iff in E. rewrite E in Hq. exfalso.
  exact (Qlt_irrefl 0 Hq).
Qed.

Section Recording.

Context {M : MathLib}.

Variable a : AnalyserNode.
Variable x : ExportClosure.
Variable startTime : Q.

#[local] Abbreviation D := (duration (x_buffer x)).

Hypothesis D_pos : 0 < D.

Lemma recordAnimation_before (tick : Tick) (canvas : option Context2D) :
  elapsed startTime (fst tick) < D ->
  exists canvas',
    recordAnimation (Some a) x startTime tick canvas
    = (frame_effects (has_context canvas) D (elapsed startTime (fst tick)),
       canvas')
    /\ has_context canvas' = has_context canvas.
Proof.
  intros Hlt. destruct tick as [now spectrum]. cbn [fst] in Hlt.
  unfold recordAnimation. fold D. fold (elapsed startTime now).
  rewrite (proj2 (Qltb_lt _ _) Hlt).
  assert (Hp : (Num.fin (elapsed startTime now) / Num.fin D * Num.fin 100)%js
               = Some (elapsed startTime now / D * 100)).
  { unfold Num.div, Num.fin. rewrite (Qis_zero_pos D_pos). reflexivity. }
  rewrite Hp. destruct canvas as [context|].
  - destruct (@drawWaveform_returns M a (x_buffer x)
                (elapsed startTime now) (x_style x) (x_preset x)
                (x_transparent x)
                (Some (getByteFrequencyData createAnalyser_2048 spectrum)))
      with (c := context) as (u & context' & Hrun).
    + intros l Hl. injection Hl as <-.
      rewrite length_getByteFrequencyData. vm_compute. lia.
    + rewrite Hrun. exists (Some context'). split; reflexivity.
  - exists None. split; reflexivity.
Qed.

Lemma recordAnimation_after (tick : Tick) (canvas : option Context2D) :
  D <= elapsed startTime (fst tick) ->
  recordAnimation (Some a) x startTime tick canvas = (final_effects, canvas).
Proof.
  intros Hge. destruct tick as [now spectrum]. cbn [fst] in Hge.
  unfold recordAnimation. fold D. fold (elapsed startTime now).
  rewrite (proj2 (Qltb_ge _ _) Hge). reflexivity.
Qed.

Lemma export_loop_trace (pre : list Tick) (last : Tick) (post : list Tick) :
  (forall tk, In tk pre -> elapsed startTime (fst tk) < D) ->
  D <= elapsed startTime (fst last) ->
  forall canvas,
    fst (export_loop (Some a) x startTime (pre ++ last :: post) canvas)
    = flat_map (fun tk => frame_effects (has_context canvas) D
                            (elapsed startTime (fst tk))) pre
      ++ final_effects.
Proof.
  intros Hpre Hlast.
  induction pre as [|tk pre IH]; intros canvas; cbn [app export_loop flat_map].
  - rewrite recordAnimation_after by exact Hlast. reflexivity.
  - destruct (recordAnimation_before tk canvas) as (canvas' & Hrun & Hctx).
    { apply Hpre. now left. }
    rewrite Hrun.
    assert (Hraf : existsb is_RequestAnimationFrame
                     (frame_effects (has_context canvas) D
                        (elapsed startTime (fst tk))) = true)
      by (destruct (has_context canvas); reflexivity).
    rewrite Hraf.
    specialize (IH (fun tk' H' => Hpre tk' (or_intror H')) canvas').
    destruct (export_loop (Some a) x startTime (pre ++ last :: post) canvas')
      as [more canvas''].
    cbn [fst] in IH |- *. rewrite IH, Hctx, app_assoc. reflexivity.
Qed.

End Recording.

Lemma rendered_positions_app (t1 t2 : list Effect) :
  rendered_positions (t1 ++ t2) = rendered_positions t1 ++ rendered_positions t2.
Proof. unfold rendered_positions. apply flat_map_app. Qed.

Lemma progress_reports_app (t1 t2 : list Effect) :
  progress_reports (t1 ++ t2) = progress_reports t1 ++ progress_reports t2.
Proof. unfold progress_reports. apply flat_map_app. Qed.

Lemma rendered_positions_frames (drawn : bool) (D startTime : Q)
  (pre : list Tick) :
  rendered_positions
    (flat_map (fun tk => frame_effects drawn D (elapsed startTime (fst tk)))
              pre)
  = if drawn then map (fun tk => elapsed startTime (fst tk)) pre else [].
Proof.
  induction pre as [|tk pre IH]; cbn [flat_map map].
  - now destruct drawn.
  - rewrite rendered_positions_app, IH. now destruct drawn.
Qed.

Lemma progress_reports_frames (drawn : bool) (D startTime : Q)
  (pre : list Tick) :
  progress_reports
    (flat_map (fun tk => frame_effects drawn D (elapsed startTime (fst tk)))
              pre)
  = map (fun tk => Some (elapsed startTime (fst tk) / D * 100)) pre.
Proof.
  induction pre as [|tk pre IH]; cbn [flat_map map]; [reflexivity|].
  rewrite progress_reports_app, IH. now destruct drawn.
Qed.

Lemma fraction_of_progress (D e : Q) :
  0 < D -> progressFraction (e / D * 100) == e / D.
Proof.
  intros HD. unfold progressFraction. field.
  intros E. rewrite E in HD. exact (Qlt_irrefl 0 HD).
Qed.

Lemma count_complete_frames (D startTime : Q) (pre : list Tick) :
  0 < D ->
  (forall tk, In tk pre -> elapsed startTime (fst tk) < D) ->
  count_complete
    (map (fun tk => Some (elapsed startTime (fst tk) / D * 100)) pre
     ++ [Some 100]) = 1%nat.
Proof.
  intros HD Hpre. unfold count_complete.
  induction pre as [|tk pre IH]; [reflexivity|].
  cbn [map app filter].
  assert (Hlt : elapsed startTime (fst tk) < D) by (apply Hpre; now left).
  destruct (Qeq_bool (progressFraction (elapsed startTime (fst tk) / D * 100))
                     1) eqn:E.
  - exfalso. apply Qeq_bool_iff in E.
    rewrite (fraction_of_progress _ HD) in E.
    assert (Heq : elapsed startTime (fst tk) == D).
    { rewrite <- (Qmult_1_l D), <- E. field.
      intros Z0. rewrite Z0 in HD. exact (Qlt_irrefl 0 HD). }
    rewrite Heq in Hlt. exact (Qlt_irrefl D Hlt).
  - apply IH. intros tk' H'. apply Hpre. now right.
Qed.

Section Duration.

Context {M : MathLib}.

(** C2.  Let the clock readings of the callbacks be [pre], for which the
    elapsed time is below the duration [D > 0] of the signal, followed by a
    reading for which it is not.  Then the loop runs exactly the callbacks
    of [pre] and the one after: each callback of [pre] renders one frame at
    its elapsed time (when the canvas has a context) and reports
    [elapsed / D] as progress fraction; the next callback renders nothing,
    stops the buffer source, the recorder and the tracks and reports
    progress fraction 1, and nothing runs after it.  Frames are rendered only
    at positions below [D], and progress fraction 1 is reported exactly
    once. *)
Theorem export_renders_while_elapsed_below_duration
  (a : AnalyserNode) (x : ExportClosure) (startTime : Q)
  (pre : list Tick) (last : Tick) (post : list Tick)
  (canvas : option Context2D) :
  let D := duration (x_buffer x) in
  0 < D ->
  (forall tk, In tk pre -> elapsed startTime (fst tk) < D) ->
  D <= elapsed startTime (fst last) ->
  let trace :=
    fst (export_loop (Some a) x startTime (pre ++ last :: post) canvas) in
  trace
  = flat_map (fun tk => frame_effects (has_context canvas) D
                          (elapsed startTime (fst tk))) pre
    ++ [BufferSourceStop; RecorderStop; TracksStop;
        SetExportProgress (Some 100)]
  /\ (forall t, In t (rendered_positions trace) -> t < D)
  /\ (forall tk, In tk pre ->
        progressFraction (elapsed startTime (fst tk) / D * 100)
        == elapsed startTime (fst tk) / D)
  /\ progressFraction 100 == 1
  /\ count_complete (progress_reports trace) = 1%nat.
Proof.
  intros D HD Hpre Hlast trace.
  assert (Htrace : trace
                   = flat_map (fun tk => frame_effects (has_context canvas) D
                                           (elapsed startTime (fst tk))) pre
                     ++ final_effects)
    by (apply export_loop_trace; assumption).
  split; [exact Htrace|]. split; [|split; [|split]].
  - intros t Ht. rewrite Htrace in Ht.
    rewrite rendered_positions_app, rendered_positions_frames in Ht.
    cbn [rendered_positions final_effects flat_map app] in Ht.
    rewrite app_nil_r in Ht.
    destruct (has_context canvas); [|destruct Ht].
    apply in_map_iff in Ht. destruct Ht as (tk & <- & Htk).
    now apply Hpre.
  - intros tk _. now apply fraction_of_progress.
  - reflexivity.
  - rewrite Htrace, progress_reports_app, progress_reports_frames.
    now apply count_complete_frames.
Qed.

(** C3, as the code has it.  The position of each exported frame is the
    wall-clock time between the start of the recording and the callback
    that renders it, [(performance.now() - startTime) / 1000]: the sequence
    of positions is the sequence of the clock readings below the duration,
    shifted and scaled. *)
Theorem export_positions_follow_wall_clock
  (a : AnalyserNode) (x : ExportClosure) (startTime : Q)
  (pre : list Tick) (last : Tick) (post : list Tick) (context : Context2D) :
  let D := duration (x_buffer x) in
  0 < D ->
  (forall tk, In tk pre -> elapsed startTime (fst tk) < D) ->
  D <= elapsed startTime (fst last) ->
  rendered_positions
    (fst (export_loop (Some a) x startTime (pre ++ last :: post)
            (Some context)))
  = map (fun tk => (fst tk - startTime) / 1000) pre.
Proof.
  intros D HD Hpre Hlast.
  rewrite export_loop_trace by assumption.
  rewrite rendered_positions_app, rendered_positions_frames.
  cbn [has_context rendered_positions final_effects flat_map app].
  now rewrite app_nil_r.
Qed.

End Duration.

Lemma export_renders_while_elapsed_below_duration_witness :
  let trace :=
    fst (@export_loop example_math (Some createAnalyser_2048) example_closure
           0 ticks_a (Some (fresh 4 8))) in
  (forall t, In t (rendered_positions trace) -> t < 2)
  /\ count_complete (progress_reports trace) = 1%nat.
Proof.
  destruct (@export_renders_while_elapsed_below_duration example_math
              createAnalyser_2048 example_closure 0
              [(0, []); (16, []); (50, [])] (2000, []) [(2016, [])]
              (Some (fresh 4 8)))
    as (_ & Hbelow & _ & _ & Honce).
  - reflexivity.
  - intros tk Htk. cbn [In] in Htk.
    repeat (destruct Htk as [<- | Htk]; [reflexivity|]). destruct Htk.
  - vm_compute. discriminate.
  - split; [exact Hbelow | exact Honce].
Defined.

Lemma export_positions_follow_wall_clock_witness :
  rendered_positions
    (fst (@export_loop example_math (Some createAnalyser_2048)
            example_closure 0 ticks_b (Some (fresh 4 8))))
  = map (fun tk : Tick => (fst tk - 0) / 1000) [(0, []); (33, []); (66, [])].
Proof.
  apply (@export_positions_follow_wall_clock example_math
           createAnalyser_2048 example_closure 0
           [(0, []); (33, []); (66, [])] (2001, []) [] (fresh 4 8)).
  - reflexivity.
  - intros tk Htk. cbn [In] in Htk.
    repeat (destruct Htk as [<- | Htk]; [reflexivity|]). destruct Htk.
  - vm_compute. discriminate.
Defined.

(** C3, as the specification words it, fails: the positions depend on the
    wall clock.  Two recordings of the same signal with the same
    configuration, whose callbacks the browser runs at different times,
    render frames at different positions, and the positions of one recording
    are not spaced by any fixed interval. *)
Lemma export_positions_depend_on_wall_clock :
  let positions ticks :=
    rendered_positions
      (fst (@export_loop example_math (Some createAnalyser_2048)
              example_closure 0 ticks (Some (fresh 4 8)))) in
  positions ticks_a = [(0 - 0) / 1000; (16 - 0) / 1000; (50 - 0) / 1000]
  /\ positions ticks_b = [(0 - 0) / 1000; (33 - 0) / 1000; (66 - 0) / 1000]
  /\ positions ticks_a <> positions ticks_b
  /\ ~ exists dt, fixed_step dt (positions ticks_a).
Proof.
  cbv beta zeta.
  assert (Ha : rendered_positions
                 (fst (@export_loop example_math (Some createAnalyser_2048)
                         example_closure 0 ticks_a (Some (fresh 4 8))))
               = [(0 - 0) / 1000; (16 - 0) / 1000; (50 - 0) / 1000])
    by (vm_compute; reflexivity).
  assert (Hb : rendered_positions
                 (fst (@export_loop example_math (Some createAnalyser_2048)
                         example_closure 0 ticks_b (Some (fresh 4 8))))
               = [(0 - 0) / 1000; (33 - 0) / 1000; (66 - 0) / 1000])
    by (vm_compute; reflexivity).
  rewrite Ha, Hb. split; [reflexivity|]. split; [reflexivity|]. split.
  - intros H. vm_compute in H. discriminate H.
  - intros (dt & H1 & H2 & _). rewrite <- H1 in H2.
    vm_compute in H2. discriminate H2.
Qed.

(** ** The component *)

Lemma update_nth_Forall {A} (P : A -> Prop) (f : A -> A) (l : list A) :
  (forall j, P j -> P (f j)) ->
  forall k, Forall P l -> Forall P (update_nth k f l).
Proof.
  intros Hf. induction l as [|j l IH]; intros k Hl; [destruct k; constructor|].
  inversion Hl as [|? ? Hj Hrest]; subst.
  destruct k as [|k]; cbn [update_nth]; constructor; auto.
Qed.

Lemma filter_update_same (f : ExportJob -> ExportJob) (l : list ExportJob) :
  (forall j, job_active (f j) = job_active j) ->
  forall k,
    List.length (filter job_active (update_nth k f l))
    = List.length (filter job_active l).
Proof.
  intros Hf. induction l as [|j l IH]; intros k; [destruct k; reflexivity|].
  destruct k as [|k]; cbn [update_nth filter].
  - rewrite Hf. destruct (job_active j); reflexivity.
  - destruct (job_active j); cbn [List.length]; now rewrite IH.
Qed.

Lemma filter_update_drop (f : ExportJob -> ExportJob) (l : list ExportJob) :
  forall k j,
    nth_error l k = Some j ->
    job_active j = true -> job_active (f j) = false ->
    S (List.length (filter job_active (update_nth k f l)))
    = List.length (filter job_active l).
Proof.
  induction l as [|j0 l IH]; intros k j Hk Ha Hf; [destruct k; discriminate|].
  destruct k as [|k]; cbn [update_nth filter nth_error] in *.
  - injection Hk as ->. now rewrite Ha, Hf.
  - destruct (job_active j0); cbn [List.length];
      now rewrite <- (IH k j Hk Ha Hf).
Qed.

Lemma job_after_active (effects : list Effect) (s : Q) (j : ExportJob) :
  job_active (job_after effects s j) = job_active j.
Proof.
  unfold job_active, job_after. cbn [job_recorder job_stop_pending].
  destruct (existsb _ effects), (job_recorder j), (job_stop_pending j);
    reflexivity.
Qed.

Lemma job_after_wf (effects : list Effect) (s : Q) (j : ExportJob) :
  job_wf j -> job_wf (job_after effects s j).
Proof.
  unfold job_wf, job_after. cbn [job_recorder job_stop_pending].
  destruct (existsb _ effects), (job_recorder j), (job_stop_pending j);
    cbn; intros H; auto.
Qed.

Section ComponentFacts.

Context {M : MathLib}.

Lemma invariant_initial : invariant initial_App.
Proof.
  repeat split; cbn; auto; try (intros H; now elim H).
Qed.

Lemma invariant_dispatch (e : Event) (st : App) :
  invariant st -> invariant (dispatch e st).
Proof.
  intros (Han & Hbuf & Hjobs & Hwf & Hact).
  destruct e; cbn [dispatch].
  - (* FileChosen *)
    unfold handleFileChange_begin. destruct selectedFile;
      repeat split; cbn; auto.
  - (* DecodeSettled *)
    unfold handleFileChange_settled. destruct decoded as [b|].
    + cbn [analyserNode with_audio].
      destruct (analyserNode st) as [a|] eqn:Ea.
      * repeat split; cbn; auto; rewrite ?Ea; auto; discriminate.
      * repeat split; cbn; auto; discriminate.
    + repeat split; cbn; auto.
  - repeat split; cbn; auto.
  - repeat split; cbn; auto.
  - repeat split; cbn; auto.
  - (* ClickCreateVideo *)
    unfold click_CreateVideo, createVideo_enabled.
    destruct (audioBuffer st) as [buf|] eqn:Eb;
      [|repeat split; cbn; rewrite ?Eb; auto].
    destruct (isExporting st) eqn:Ee;
      [repeat split; cbn; rewrite ?Eb, ?Ee; auto|].
    destruct (isLoading st); cbn [negb andb];
      [repeat split; rewrite ?Eb, ?Ee; auto|].
    unfold handleExport. rewrite Eb.
    destruct (canvasRef st);
      [|repeat split; rewrite ?Eb, ?Ee; auto].
    assert (Hsome : analyserNode st <> None)
      by (apply Hbuf; discriminate).
    repeat split; cbn [analyserNode audioBuffer jobs isExporting
                       with_jobs with_export]; auto.
    + apply Forall_app. split; [exact Hwf|].
      constructor; [|constructor]. intros H. discriminate H.
    + unfold active_jobs in *.
      cbn [jobs with_jobs]. rewrite filter_app, length_app.
      cbn. lia.
  - (* AnimationFrame *)
    unfold animation_frame.
    destruct (nth_error (jobs st) k) as [j|] eqn:Ek;
      [|repeat split; auto].
    destruct (canvasRef st) as [canvas|]; [|repeat split; auto].
    destruct (job_frame_requested j); [|repeat split; auto].
    destruct (recordAnimation _ _ _ _ _) as [effects context'].
    repeat split; cbn [analyserNode audioBuffer jobs isExporting
                       with_jobs with_export with_canvas]; auto.
    + intros H. apply Hjobs. intros E. apply H. now rewrite E; destruct k.
    + apply update_nth_Forall; [apply job_after_wf | exact Hwf].
    + unfold active_jobs in *.
      cbn [jobs with_jobs]. rewrite filter_update_same; [exact Hact|].
      apply job_after_active.
  - (* RecorderStopped *)
    unfold recorder_onstop.
    destruct (nth_error (jobs st) k) as [j|] eqn:Ek;
      [|repeat split; auto].
    destruct (job_stop_pending j) eqn:Ep; [|repeat split; auto].
    assert (Hj : job_wf j).
    { rewrite Forall_forall in Hwf. apply Hwf.
      eapply nth_error_In; exact Ek. }
    assert (Hbefore : job_active j = true)
      by (unfold job_active; rewrite Ep; apply orb_true_r).
    assert (Hafter : job_active (job_stopped j) = false)
      by (unfold job_active, job_stopped; cbn; now rewrite (Hj Ep)).
    pose proof (filter_update_drop job_stopped (jobs st) k Ek Hbefore Hafter)
      as Hdrop.
    repeat split; cbn [analyserNode audioBuffer jobs isExporting
                       with_jobs with_export]; auto.
    + intros H. apply Hjobs. intros E. apply H. now rewrite E; destruct k.
    + apply update_nth_Forall; [|exact Hwf].
      intros j0 _ H. discriminate H.
    + unfold active_jobs in *. cbn [jobs with_jobs].
      destruct (isExporting st); lia.
  - (* PreviewFrame *)
    unfold preview_frame.
    destruct (canvasRef st) as [canvas|]; [|repeat split; auto].
    destruct (audioBuffer st) as [buf|] eqn:Eb; [|repeat split; rewrite ?Eb; auto].
    destruct (context2d canvas); [|repeat split; rewrite ?Eb; auto].
    repeat split; cbn; rewrite ?Eb; auto.
Qed.

Lemma invariant_run (events : list Event) :
  forall st, invariant st -> invariant (run events st).
Proof.
  induction events as [|e events IH]; intros st Hst; [exact Hst|].
  cbn [run fold_left]. apply IH. now apply invariant_dispatch.
Qed.

End ComponentFacts.

Section Session.

Context {M : MathLib}.


(** C10.  With a snapshot, the Equalizer case dereferences the session ref
    [analyserNode.current]: when the ref is null the call throws a
    [TypeError] after the canvas was cleared; when it holds an analyser the
    number of bars is its [frequencyBinCount / 4], whatever the length of
    the snapshot, which is 256 for the analyser of [fftSize] 2048 the code
    creates.  Export renders, which pass the snapshot of their own analyser,
    read the same session ref and fail in the same way without it.  The ref
    is null when the component mounts and is set by the
    first successful load of a file, and in every state the component can
    reach in which a signal is loaded or an export job exists (so that a
    preview or export render can happen) it holds that analyser. *)
Theorem equalizer_reads_session_analyser :
  (forall buf t preset transp fd c,
     drawWaveform None buf t Equalizer preset transp (Some fd) c
     = (Thrown TypeError, cleared transp c))
  /\ (forall a c,
        barCount (Some a) Equalizer c
        = (Returned (inject_Z (frequencyBinCount a) / 4), c))
  /\ iterations (inject_Z (frequencyBinCount createAnalyser_2048) / 4)
     = 256%nat
  /\ (forall buf t preset transp fd c,
        (256 <= List.length fd)%nat ->
        exists c',
          drawWaveform (Some createAnalyser_2048) buf t Equalizer preset
            transp (Some fd) c = (Returned tt, c')
          /\ display c'
             = background transp (globalAlpha c)
                 (inject_Z (width c)) (inject_Z (height c))
               ++ map (fun i =>
                         centred_bar_rect
                           (inject_Z (frequencyBinCount createAnalyser_2048)
                            / 4) 1
                           (inject_Z (width c)) (inject_Z (height c))
                           (u8 (nth i fd Byte.x00)) i (fillStyle c') (globalAlpha c))
                      (seq 0 256))
  /\ (forall x startTime now spectrum context,
        x_style x = Equalizer ->
        (now - startTime) / 1000 < duration (x_buffer x) ->
        fst (recordAnimation None x startTime (now, spectrum) (Some context))
        = [DrawWaveform ((now - startTime) / 1000); Uncaught TypeError])
  /\ analyserNode initial_App = None
  /\ (forall st b,
        analyserNode st = None ->
        analyserNode (handleFileChange_settled (Some b) st)
        = Some createAnalyser_2048)
  /\ (forall events,
        let st := run events initial_App in
        audioBuffer st <> None \/ jobs st <> [] ->
        analyserNode st = Some createAnalyser_2048).
Proof.
  assert (Hnull : forall buf t preset transp fd c,
             drawWaveform None buf t Equalizer preset transp (Some fd) c
             = (Thrown TypeError, cleared transp c))
    by (intros; rewrite drawWaveform_cases; reflexivity).
  split; [|split; [|split; [|split; [|split; [|split; [|split]]]]]].
  - exact Hnull.
  - intros a c. reflexivity.
  - reflexivity.
  - intros buf t preset transp fd c Hlen.
    destruct (cleared_facts transp c) as (Hd & Ha & _ & _).
    eexists. split.
    + rewrite drawWaveform_cases. cbv zeta.
      apply (@case_Bars_Equalizer createAnalyser_2048 preset fd
               (inject_Z (width c)) (inject_Z (height c))
               (cleared transp c) 255);
        [reflexivity | reflexivity | exact Hlen].
    + cbn [display set_display fillStyle]. rewrite Hd, Ha. reflexivity.
  - intros x startTime now spectrum context Hstyle Hlt.
    unfold recordAnimation. rewrite (proj2 (Qltb_lt _ _) Hlt).
    rewrite Hstyle, Hnull. reflexivity.
  - reflexivity.
  - intros st b Hnone. unfold handleFileChange_settled.
    cbn [analyserNode with_audio]. rewrite Hnone. reflexivity.
  - intros events st Hsome.
    destruct (invariant_run events invariant_initial)
      as (Han & Hbuf & Hjobs & _ & _).
    fold st in Han, Hbuf, Hjobs.
    destruct Han as [Hnone | Hok]; [|exact Hok].
    exfalso. destruct Hsome as [H | H]; [now apply Hbuf | now apply Hjobs].
Qed.

End Session.



Lemma equalizer_reads_session_analyser_witness :
  (exists c',
     @drawWaveform example_math (Some createAnalyser_2048) example_buffer 1
       Equalizer Emerald true (Some snapshot_bass) (fresh 1280 720)
     = (Returned tt, c')
     /\ List.length (display c') = 256%nat)
  /\ analyserNode exporting_App = Some createAnalyser_2048.
Proof.
  destruct (@equalizer_reads_session_analyser example_math)
    as (_ & _ & _ & Hbars & _ & _ & _ & Hreach).
  split.
  - destruct (Hbars example_buffer 1 Emerald true snapshot_bass
                (fresh 1280 720)) as (c' & Hrun & Hdisp).
    + vm_compute. lia.
    + exists c'. split; [exact Hrun|].
      rewrite Hdisp. cbn [background app]. now rewrite length_map, length_seq.
  - apply (Hreach
             [FileChosen true; DecodeSettled (Some example_buffer);
              SetWaveformStyle Line; ClickCreateVideo;
              AnimationFrame 0 0 0 []; AnimationFrame 0 1000 1000 []]).
    right. vm_compute. discriminate.
Defined.

(** * Further properties of the code *)

(** ** Amplitude shaping and the geometry of the bars *)

Lemma u8_range (b : Byte.byte) : (0 <= u8 b <= 255)%Z.
Proof.
  unfold u8. pose proof (Byte.to_N_bounded b). lia.
Qed.

Lemma Qdiv_255_range (v : Z) :
  (0 <= v <= 255)%Z -> 0 <= inject_Z v / 255 /\ inject_Z v / 255 <= 1.
Proof.
  intros Hv. split.
  - apply Qle_shift_div_l; [reflexivity|]. rewrite Qmult_0_l.
    change 0 with (inject_Z 0). rewrite <- Zle_Qle. lia.
  - apply Qle_shift_div_r; [reflexivity|]. rewrite Qmult_1_l.
    change 255 with (inject_Z 255). rewrite <- Zle_Qle. lia.
Qed.

Lemma Qdiv_255_mono (v1 v2 : Z) :
  (v1 <= v2)%Z -> inject_Z v1 / 255 <= inject_Z v2 / 255.
Proof.
  intros Hv. unfold Qdiv. apply Qmult_le_compat_r.
  - rewrite <- Zle_Qle. exact Hv.
  - discriminate.
Qed.

(** The height [(v / 255)^2 * H] of a bar for a byte [v]. *)
Lemma shaped_height_range (v : Z) (H : Q) :
  (0 <= v <= 255)%Z -> 0 <= H ->
  0 <= inject_Z v / 255 * (inject_Z v / 255) * H
  /\ inject_Z v / 255 * (inject_Z v / 255) * H <= H.
Proof.
  intros Hv HH. destruct (Qdiv_255_range Hv) as (H0 & H1).
  split.
  - apply Qmult_le_0_compat; [apply Qmult_le_0_compat|]; assumption.
  - rewrite <- (Qmult_1_l H) at 2. apply Qmult_le_compat_r; [|exact HH].
    rewrite <- (Qmult_1_l 1).
    apply Qmult_le_compat_nonneg; split; assumption.
Qed.

Lemma barHeight_of_bin (fd : list Byte.byte) (H : Q) (i : nat) (b : Byte.byte) :
  nth_error fd i = Some b ->
  barHeight fd H i
  = Some (inject_Z (u8 b) / 255 * (inject_Z (u8 b) / 255) * H).
Proof.
  intros Hb. unfold barHeight, shaped, bin, typed_get_nat. rewrite Hb.
  reflexivity.
Qed.

(** X1.  The height of a bar is a non-decreasing function of the bin it
    shows: it is 0 for a bin of 0, the full height for a bin of 255, and
    between the two otherwise; a bin past the end of the snapshot gives no
    finite height, so that no bar is painted for it. *)
Theorem barHeight_is_monotone_and_bounded
  (fd1 fd2 : list Byte.byte) (H : Q) (i : nat) (b1 b2 : Byte.byte) :
  0 <= H ->
  nth_error fd1 i = Some b1 ->
  nth_error fd2 i = Some b2 ->
  (u8 b1 <= u8 b2)%Z ->
  (exists h1 h2,
     barHeight fd1 H i = Some h1 /\ barHeight fd2 H i = Some h2
     /\ 0 <= h1 /\ h1 <= h2 /\ h2 <= H
     /\ (b1 = Byte.x00 -> h1 == 0)
     /\ (b2 = Byte.xff -> h2 == H))
  /\ (forall fd k, (List.length fd <= k)%nat -> barHeight fd H k = None).
Proof.
  intros HH Hb1 Hb2 Hle. split.
  - exists (inject_Z (u8 b1) / 255 * (inject_Z (u8 b1) / 255) * H),
           (inject_Z (u8 b2) / 255 * (inject_Z (u8 b2) / 255) * H).
    pose proof (u8_range b1) as R1. pose proof (u8_range b2) as R2.
    destruct (Qdiv_255_range R1) as (A0 & A1).
    destruct (Qdiv_255_range R2) as (B0 & B1).
    pose proof (Qdiv_255_mono Hle) as Hmono.
    split; [now apply barHeight_of_bin|].
    split; [now apply barHeight_of_bin|].
    split; [apply (shaped_height_range R1 HH)|].
    split; [|split; [apply (shaped_height_range R2 HH)|split]].
    + apply Qmult_le_compat_r; [|exact HH].
      apply Qmult_le_compat_nonneg; split; assumption.
    + intros ->. change (u8 Byte.x00) with 0%Z. field.
    + intros ->. change (u8 Byte.xff) with 255%Z. field.
  - intros fd k Hk. unfold barHeight, shaped, bin, typed_get_nat.
    rewrite (proj2 (nth_error_None fd k) Hk). reflexivity.
Qed.

Lemma barHeight_is_monotone_and_bounded_witness :
  exists h1 h2,
    barHeight snapshot_bass 720 200 = Some h1
    /\ barHeight snapshot_bass 720 5 = Some h2
    /\ h1 <= h2 /\ h2 == 720.
Proof.
  destruct (@barHeight_is_monotone_and_bounded
              (skipn 195 snapshot_bass) snapshot_bass 720 5
              Byte.x07 Byte.xff)
    as ((h1 & h2 & E1 & E2 & _ & Hle & _ & _ & Hfull) & _).
  - discriminate.
  - reflexivity.
  - reflexivity.
  - vm_compute. discriminate.
  - exists h1, h2. split; [|split; [exact E2|split; [exact Hle|]]].
    + rewrite <- E1. reflexivity.
    + now apply Hfull.
Defined.

Section BarGeometry.

Context {M : MathLib}.

(** X2.  In the SymmetricBars and BottomBars styles the 128 bars tile the
    width of the canvas: the first starts at the left edge, each next one
    starts one bar width and a gap of 4 further, and the last ends at the
    right edge.  Every bar is between 0 and the canvas height high;
    BottomBars rest on the bottom edge and SymmetricBars are centred on the
    horizontal midline. *)
Theorem bars128_tile_the_canvas (an : option AnalyserNode)
  (buf : AudioBuffer) (t : Q) (style : WaveformStyle) (preset : ColorPreset)
  (transp : bool) (fd : list Byte.byte) (c : Context2D) :
  style = SymmetricBars \/ style = BottomBars ->
  (128 <= List.length fd)%nat ->
  (0 <= height c)%Z ->
  let W := inject_Z (width c) in
  let H := inject_Z (height c) in
  exists (x y h : nat -> Q) (w : Q) (p : Paint) (c' : Context2D),
    drawWaveform an buf t style preset transp (Some fd) c = (Returned tt, c')
    /\ display c'
       = background transp (globalAlpha c) W H
         ++ map (fun i => PFillRect p (globalAlpha c) (x i) (y i) w (h i))
                (seq 0 128)
    /\ x 0%nat == 0
    /\ (forall i, x (S i) == x i + w + 4)
    /\ x 127%nat + w == W
    /\ (forall i, (i < 128)%nat -> 0 <= h i /\ h i <= H)
    /\ (forall i, if style_eqb style BottomBars
                  then y i + h i == H
                  else y i + h i / 2 == H / 2).
Proof.
  intros Hstyle Hlen Hpos W H.
  destruct (cleared_facts transp c) as (Hd & Ha & _ & _).
  pose proof (case_Bars_128 an preset fd W H (cleared transp c) Hstyle Hlen)
    as Hbars.
  assert (Hrun : drawWaveform an buf t style preset transp (Some fd) c
                 = case_Bars an style preset (Some fd) W H (cleared transp c))
    by (rewrite drawWaveform_cases; destruct Hstyle as [-> | ->]; reflexivity).
  rewrite Hbars in Hrun.
  set (bh := fun i : nat =>
               inject_Z (u8 (nth i fd Byte.x00)) / 255
               * (inject_Z (u8 (nth i fd Byte.x00)) / 255) * H).
  exists (fun i => inject_Z (Z.of_nat i) * ((W - (128 - 1) * 4) / 128 + 4)),
         (fun i => if style_eqb style BottomBars
                   then H - bh i else (H - bh i) / 2),
         bh, ((W - (128 - 1) * 4) / 128).
  eexists. eexists.
  split; [exact Hrun|]. split; [|split; [|split; [|split; [|split]]]].
  - cbn [display set_display]. rewrite Hd, Ha. reflexivity.
  - cbn. ring.
  - intros i. rewrite Nat2Z.inj_succ. unfold Z.succ.
    rewrite inject_Z_plus. change (inject_Z 1) with 1. ring.
  - change (inject_Z (Z.of_nat 127)) with 127. field.
  - intros i _. apply shaped_height_range; [apply u8_range|].
    unfold H. change 0 with (inject_Z 0). rewrite <- Zle_Qle. exact Hpos.
  - intros i. destruct (style_eqb style BottomBars); [ring | field].
Qed.

End BarGeometry.

Lemma bars128_tile_the_canvas_witness :
  exists (x : nat -> Q) (w : Q),
    x 0%nat == 0 /\ x 127%nat + w == inject_Z 1280.
Proof.
  destruct (@bars128_tile_the_canvas example_math None example_buffer 1
              BottomBars Emerald true snapshot_bass (fresh 1280 720))
    as (x & y & h & w & p & c' & _ & _ & H0 & _ & Hlast & _).
  - right; reflexivity.
  - vm_compute. lia.
  - discriminate.
  - exists x, w. split; [exact H0 | exact Hlast].
Defined.

(** ** The stops of a gradient *)

(** X3.  For a preset of two or more colours, the stops [getActiveStyle]
    gives to the gradient have offsets between 0 and 1, the first at 0 and
    the last at 1: [addColorStop] is never called with an offset it would
    reject. *)
Theorem getActiveStyle_offsets_in_unit_interval
  (preset : ColorPreset) (y1 y2 : Q) (c : Context2D) :
  (2 <= List.length (colors preset))%nat ->
  exists stops,
    getActiveStyle preset (Some y1) (Some y2) c
    = (Returned (Some (Gradient (Linear 0 y1 0 y2 stops))), c)
    /\ (forall k o col, nth_error stops k = Some (o, col) -> 0 <= o /\ o <= 1)
    /\ (exists col, nth_error stops 0 = Some (0 / inject_Z
            (Z.of_nat (List.length (colors preset)) - 1), col))
    /\ (exists o col,
          nth_error stops (List.length (colors preset) - 1) = Some (o, col)
          /\ o == 1).
Proof.
  intros Hlen.
  exists (addColorStops (List.length (colors preset)) 0 (colors preset)).
  assert (Hden : 0 < inject_Z (Z.of_nat (List.length (colors preset)) - 1)).
  { change 0 with (inject_Z 0). rewrite <- Zlt_Qlt. lia. }
  split; [|split; [|split]].
  - unfold getActiveStyle.
    destruct (Nat.ltb_spec 1 (List.length (colors preset))) as [_|Hle];
      [reflexivity | lia].
  - intros k o col Hk. rewrite nth_error_addColorStops in Hk.
    destruct (nth_error (colors preset) k) as [colk|] eqn:Ek;
      [|discriminate Hk].
    cbn in Hk. injection Hk as <- _.
    assert (Hklt : (k < List.length (colors preset))%nat)
      by (apply nth_error_Some; rewrite Ek; discriminate).
    split.
    + apply Qle_shift_div_l; [exact Hden|]. rewrite Qmult_0_l.
      change 0 with (inject_Z 0). rewrite <- Zle_Qle. lia.
    + apply Qle_shift_div_r; [exact Hden|]. rewrite Qmult_1_l.
      rewrite <- Zle_Qle. lia.
  - destruct (colors preset) as [|col0 rest] eqn:Ec; [cbn in Hlen; lia|].
    exists col0. reflexivity.
  - destruct (nth_error (colors preset) (List.length (colors preset) - 1))
      as [col|] eqn:Ek.
    + eexists. exists col. split.
      * rewrite nth_error_addColorStops, Ek. reflexivity.
      * cbn [Nat.add]. rewrite Nat2Z.inj_sub by lia.
        change (Z.of_nat 1) with 1%Z. field.
        intros E. rewrite E in Hden. exact (Qlt_irrefl 0 Hden).
    + exfalso. apply nth_error_None in Ek. lia.
Qed.

Lemma getActiveStyle_offsets_in_unit_interval_witness :
  exists stops,
    getActiveStyle Synthwave (Some 0) (Some 720) (fresh 1280 720)
    = (Returned (Some (Gradient (Linear 0 0 0 720 stops))), fresh 1280 720)
    /\ exists o col, nth_error stops 1 = Some (o, col) /\ o == 1.
Proof.
  destruct (@getActiveStyle_offsets_in_unit_interval Synthwave 0 720
              (fresh 1280 720)) as (stops & Hrun & _ & _ & Hlast).
  - cbn. lia.
  - exists stops. split; [exact Hrun | exact Hlast].
Defined.

(** ** The radius of the pulse *)

Lemma Zsum_range (l : list Byte.byte) :
  (0 <= Zsum l <= 255 * Z.of_nat (List.length l))%Z.
Proof.
  induction l as [|b l IH]; [cbn; lia|].
  cbn [Zsum fold_right List.length]. fold (Zsum l).
  pose proof (u8_range b). lia.
Qed.

(** X4.  For a snapshot of at least ten bins on a canvas of height [H], the
    radius of the pulsing circle lies between 10% and 60% of [H], whatever
    the spectrum. *)
Theorem pulseRadius_between_base_and_maximum (fd : list Byte.byte) (H : Q) :
  (10 <= List.length fd)%nat ->
  0 <= H ->
  exists r,
    pulseRadius fd H = Some r
    /\ H * (1 # 10) <= r /\ r <= H * (6 # 10).
Proof.
  intros Hlen HH.
  destruct (pulseRadius_mean fd H Hlen) as (r & Hr & Hmean & _).
  exists r. split; [exact Hr|].
  pose proof (bassFrequencies_le fd) as Hle.
  pose proof (bassFrequencies_pos fd Hlen) as Hpos.
  set (n := bassFrequencies fd) in *.
  set (lows := firstn n fd) in *.
  pose proof (Zsum_range lows) as Hsum.
  assert (Hl : List.length lows = n)
    by (unfold lows; apply firstn_length_le; exact Hle).
  rewrite Hl in Hsum.
  assert (Hn : 0 < inject_Z (Z.of_nat n)).
  { change 0 with (inject_Z 0). rewrite <- Zlt_Qlt. lia. }
  assert (Havg0 : 0 <= inject_Z (Zsum lows) / inject_Z (Z.of_nat n) / 255).
  { apply Qle_shift_div_l; [reflexivity|]. rewrite Qmult_0_l.
    apply Qle_shift_div_l; [exact Hn|]. rewrite Qmult_0_l.
    change 0 with (inject_Z 0). rewrite <- Zle_Qle. lia. }
  assert (Havg1 : inject_Z (Zsum lows) / inject_Z (Z.of_nat n) / 255 <= 1).
  { apply Qle_shift_div_r; [reflexivity|]. rewrite Qmult_1_l.
    apply Qle_shift_div_r; [exact Hn|].
    change 255 with (inject_Z 255). rewrite <- inject_Z_mult, <- Zle_Qle.
    lia. }
  rewrite Hmean. split.
  - rewrite <- (Qplus_0_r (H * (1 # 10))) at 1.
    apply Qplus_le_r.
    apply Qmult_le_0_compat; [apply Qmult_le_0_compat|discriminate];
      assumption.
  - setoid_replace (H * (6 # 10)) with (H * (1 # 10) + 1 * H * (1 # 2))
      by ring.
    apply Qplus_le_r.
    apply Qmult_le_compat_r; [|discriminate].
    apply Qmult_le_compat_r; assumption.
Qed.

Lemma pulseRadius_between_base_and_maximum_witness :
  exists r,
    pulseRadius snapshot_bin8 720 = Some r
    /\ 720 * (1 # 10) <= r /\ r <= 720 * (6 # 10).
Proof.
  apply (@pulseRadius_between_base_and_maximum snapshot_bin8 720).
  - vm_compute. lia.
  - discriminate.
Defined.

(** ** What drawing code leaves in place *)

Section Keeps.

Variable R : Context2D -> Context2D -> Prop.
Hypothesis R_refl : forall c, R c c.
Hypothesis R_trans : forall c1 c2 c3, R c1 c2 -> R c2 c3 -> R c1 c3.

Lemma keeps_pure {A} (m : Draw A) :
  (forall c, snd (m c) = c) -> keeps R m.
Proof. intros H c. rewrite H. apply R_refl. Qed.

Lemma keeps_bind {A B} (m : Draw A) (k : A -> Draw B) :
  keeps R m -> (forall a, keeps R (k a)) -> keeps R (bind m k).
Proof.
  intros Hm Hk c. unfold bind. specialize (Hm c).
  destruct (m c) as [[a|e] c']; cbn [snd] in *; [|exact Hm].
  eapply R_trans; [exact Hm | apply Hk].
Qed.

Lemma keeps_for_from (body : nat -> Draw unit) :
  (forall i, keeps R (body i)) -> forall n i, keeps R (for_from i n body).
Proof.
  intros Hbody n; induction n as [|n IH]; intros i; cbn [for_from].
  - apply keeps_pure. reflexivity.
  - apply keeps_bind; [apply Hbody | intros _; apply IH].
Qed.

End Keeps.

(** Size, display growth and alpha together. *)
Lemma grows_refl (c : Context2D) : grows c c.
Proof. repeat split. exists []. now rewrite app_nil_r. Qed.

Lemma grows_trans (c1 c2 c3 : Context2D) :
  grows c1 c2 -> grows c2 c3 -> grows c1 c3.
Proof.
  intros (W1 & H1 & m1 & D1) (W2 & H2 & m2 & D2).
  split; [congruence|]. split; [congruence|].
  exists (m1 ++ m2). now rewrite D2, D1, app_assoc.
Qed.

Lemma same_alpha_refl (c : Context2D) : same_alpha c c.
Proof. reflexivity. Qed.

Lemma same_alpha_trans (c1 c2 c3 : Context2D) :
  same_alpha c1 c2 -> same_alpha c2 c3 -> same_alpha c1 c3.
Proof. unfold same_alpha. congruence. Qed.

Ltac grows_solve :=
  unfold grows, modify, paint;
  cbn [snd fst width height display globalAlpha set_display set_path];
  repeat match goal with |- _ /\ _ => split end;
  try reflexivity;
  try (exists []; now rewrite app_nil_r);
  try (eexists; reflexivity).

(** One step of a proof that drawing code keeps the size and only adds to
    the display list. *)
Ltac grows_step :=
  lazymatch goal with
  | |- keeps grows (bind _ _) =>
      apply (@keeps_bind grows grows_trans); [ | intro ]
  | |- keeps grows (for_upto _ _) =>
      apply (@keeps_for_from grows grows_refl grows_trans); intro
  | |- keeps grows (if ?b then _ else _) => destruct b
  | |- keeps grows (match ?v with Some _ => _ | None => _ end) => destruct v
  | |- keeps grows (ret _) => apply (@keeps_pure grows grows_refl); reflexivity
  | |- keeps grows (throw _) => apply (@keeps_pure grows grows_refl); reflexivity
  | |- keeps grows (gets _) => apply (@keeps_pure grows grows_refl); reflexivity
  | |- keeps grows (set_fillStyle ?v) =>
      destruct v; intro; grows_solve
  | |- keeps grows (set_strokeStyle ?v) =>
      destruct v; intro; grows_solve
  | |- keeps grows (fillRect ?x ?y ?w ?h) =>
      destruct x, y, w, h; cbn [fillRect]
  | |- keeps grows (moveTo ?x ?y) => destruct x, y; cbn [moveTo]
  | |- keeps grows (lineTo ?x ?y) => destruct x, y; cbn [lineTo]
  | |- keeps grows (arc ?x ?y ?r ?a ?b) =>
      destruct x, y, r, a, b; cbn [arc]
  | |- keeps grows fill => unfold fill
  | |- keeps grows CanvasAPI.stroke => unfold CanvasAPI.stroke
  | |- keeps grows (createLinearGradient ?a ?b ?c ?d) =>
      destruct a, b, c, d; cbn [createLinearGradient]
  | |- keeps grows (createRadialGradient ?a ?b ?c ?d ?e ?f) =>
      destruct a, b, c, d, e, f; cbn [createRadialGradient]
  | |- keeps grows _ => intro; grows_solve
  end.

Ltac alpha_step :=
  lazymatch goal with
  | |- keeps same_alpha (bind _ _) =>
      apply (@keeps_bind same_alpha same_alpha_trans); [ | intro ]
  | |- keeps same_alpha (for_upto _ _) =>
      apply (@keeps_for_from same_alpha same_alpha_refl same_alpha_trans); intro
  | |- keeps same_alpha (if ?b then _ else _) => destruct b
  | |- keeps same_alpha (match ?v with Some _ => _ | None => _ end) =>
      destruct v
  | |- keeps same_alpha (set_fillStyle ?v) => destruct v; intro; reflexivity
  | |- keeps same_alpha (set_strokeStyle ?v) => destruct v; intro; reflexivity
  | |- keeps same_alpha (fillRect ?x ?y ?w ?h) =>
      destruct x, y, w, h; cbn [fillRect]
  | |- keeps same_alpha (moveTo ?x ?y) => destruct x, y; cbn [moveTo]
  | |- keeps same_alpha (lineTo ?x ?y) => destruct x, y; cbn [lineTo]
  | |- keeps same_alpha (arc ?x ?y ?r ?a ?b) =>
      destruct x, y, r, a, b; cbn [arc]
  | |- keeps same_alpha fill => unfold fill
  | |- keeps same_alpha CanvasAPI.stroke => unfold CanvasAPI.stroke
  | |- keeps same_alpha (createLinearGradient ?a ?b ?c ?d) =>
      destruct a, b, c, d; cbn [createLinearGradient]
  | |- keeps same_alpha (createRadialGradient ?a ?b ?c ?d ?e ?f) =>
      destruct a, b, c, d, e, f; cbn [createRadialGradient]
  | |- keeps same_alpha _ => intro; reflexivity
  end.

Section Leaves.

Context {M : MathLib}.

Lemma grows_drawLine (data : list Q) (csi : Z) (W H : Q) (refl : bool) :
  keeps grows (drawLine data csi W H refl).
Proof. unfold drawLine. repeat grows_step. Qed.

Lemma same_alpha_drawLine (data : list Q) (csi : Z) (W H : Q) (refl : bool) :
  keeps same_alpha (drawLine data csi W H refl).
Proof. unfold drawLine. repeat alpha_step. Qed.

Lemma grows_case_Lines (style : WaveformStyle) (preset : ColorPreset)
  (data : list Q) (csi : Z) (W H : Q) :
  keeps grows (case_Lines style preset data csi W H).
Proof.
  unfold case_Lines, line_strokeStyle.
  repeat (grows_step || apply grows_drawLine).
Qed.

Lemma grows_case_Bars (an : option AnalyserNode) (style : WaveformStyle)
  (preset : ColorPreset) (fd : option (list Byte.byte)) (W H : Q) :
  keeps grows (case_Bars an style preset fd W H).
Proof.
  unfold case_Bars, barCount, getActiveStyle. repeat grows_step.
Qed.

Lemma grows_case_Pulse (preset : ColorPreset) (fd : option (list Byte.byte))
  (W H : Q) :
  keeps grows (case_Pulse preset fd W H).
Proof.
  unfold case_Pulse, getActiveStyle. repeat grows_step.
Qed.

Lemma grows_case_Circle (preset : ColorPreset) (fd : option (list Byte.byte))
  (W H : Q) :
  keeps grows (case_Circle preset fd W H).
Proof.
  unfold case_Circle. repeat grows_step.
Qed.

Lemma same_alpha_case_Bars (an : option AnalyserNode) (style : WaveformStyle)
  (preset : ColorPreset) (fd : option (list Byte.byte)) (W H : Q) :
  keeps same_alpha (case_Bars an style preset fd W H).
Proof.
  unfold case_Bars, barCount, getActiveStyle. repeat alpha_step.
Qed.

Lemma same_alpha_case_Pulse (preset : ColorPreset)
  (fd : option (list Byte.byte)) (W H : Q) :
  keeps same_alpha (case_Pulse preset fd W H).
Proof.
  unfold case_Pulse, getActiveStyle. repeat alpha_step.
Qed.

Lemma same_alpha_case_Circle (preset : ColorPreset)
  (fd : option (list Byte.byte)) (W H : Q) :
  keeps same_alpha (case_Circle preset fd W H).
Proof.
  unfold case_Circle. repeat alpha_step.
Qed.

End Leaves.

Lemma bind_alpha {A B} (m : Draw A) (k : A -> Draw B) (g : Q -> Q) :
  returns m -> keeps same_alpha m ->
  (forall a c, globalAlpha (snd (k a c)) = g (globalAlpha c)) ->
  forall c, globalAlpha (snd (bind m k c)) = g (globalAlpha c).
Proof.
  intros Hret Hkeep Hk c. unfold bind. specialize (Hkeep c).
  destruct (Hret c) as (a & c' & E). rewrite E in Hkeep |- *.
  cbn [snd] in Hkeep. rewrite Hk, Hkeep. reflexivity.
Qed.

Section Repaint.

Context {M : MathLib}.

Lemma returns_drawLine (data : list Q) (csi : Z) (W H : Q) (refl : bool) :
  returns (drawLine data csi W H refl).
Proof. unfold drawLine. ret_auto. Qed.

Lemma case_Lines_alpha (style : WaveformStyle) (preset : ColorPreset)
  (data : list Q) (csi : Z) (W H : Q) (c : Context2D) :
  globalAlpha (snd (case_Lines style preset data csi W H c))
  = if style_eqb style ReflectedLine then 1 else globalAlpha c.
Proof.
  unfold case_Lines.
  apply (@bind_alpha _ _ _ _
           (fun a => if style_eqb style ReflectedLine then 1 else a)).
  { unfold line_strokeStyle. ret_auto. }
  { unfold line_strokeStyle. repeat alpha_step. }
  intros ss c0.
  apply (@bind_alpha _ _ _ _
           (fun a => if style_eqb style ReflectedLine then 1 else a));
    [ret_auto | repeat alpha_step |].
  intros _ c1.
  apply (@bind_alpha _ _ _ _
           (fun a => if style_eqb style ReflectedLine then 1 else a));
    [ret_auto | repeat alpha_step |].
  intros _ c2.
  apply (@bind_alpha _ _ _ _
           (fun a => if style_eqb style ReflectedLine then 1 else a));
    [apply returns_drawLine | apply same_alpha_drawLine |].
  intros _ c3. destruct (style_eqb style ReflectedLine); [|reflexivity].
  unfold bind at 1. cbn [set_globalAlpha modify].
  unfold bind.
  destruct (returns_drawLine data csi W H true
              (snd (set_globalAlpha (1 # 2) c3))) as (u & c4 & E).
  cbn [set_globalAlpha modify snd] in E. rewrite E. reflexivity.
Qed.


(** X6.  [drawWaveform] leaves the canvas as wide and as high as it found
    it, and leaves the global alpha as it found it, except that the
    ReflectedLine style, which draws its mirror image at alpha 0.5, ends by
    setting it to 1: the half opacity never carries over to the next
    frame. *)
Theorem drawWaveform_keeps_size_and_opacity (an : option AnalyserNode)
  (buf : AudioBuffer) (t : Q) (style : WaveformStyle) (preset : ColorPreset)
  (transp : bool) (fd : option (list Byte.byte)) (c : Context2D) :
  let c' := snd (drawWaveform an buf t style preset transp fd c) in
  width c' = width c
  /\ height c' = height c
  /\ globalAlpha c'
     = if style_eqb style ReflectedLine then 1 else globalAlpha c.
Proof.
  cbv zeta. rewrite drawWaveform_cases. cbv zeta.
  destruct (cleared_facts transp c) as (_ & Ha & Hw & Hh).
  split; [|split].
  - rewrite <- Hw.
    destruct style;
      first [ apply grows_case_Lines | apply grows_case_Bars
            | apply grows_case_Circle | apply grows_case_Pulse ].
  - rewrite <- Hh.
    destruct style;
      first [ apply grows_case_Lines | apply grows_case_Bars
            | apply grows_case_Circle | apply grows_case_Pulse ].
  - rewrite <- Ha.
    destruct style;
      first [ apply case_Lines_alpha
            | apply same_alpha_case_Bars
            | apply same_alpha_case_Circle
            | apply same_alpha_case_Pulse ].
Qed.

(** X7.  Without a snapshot the five spectrum styles paint the background
    and nothing else, and return without touching the session analyser;
    the three line styles do not look at the snapshot at all. *)
Theorem drawWaveform_without_snapshot (an : option AnalyserNode)
  (buf : AudioBuffer) (t : Q) (style : WaveformStyle) (preset : ColorPreset)
  (transp : bool) (c : Context2D) :
  (is_line_style style = false ->
   exists c',
     drawWaveform an buf t style preset transp None c = (Returned tt, c')
     /\ display c'
        = background transp (globalAlpha c)
            (inject_Z (width c)) (inject_Z (height c)))
  /\ (is_line_style style = true ->
      forall fd,
        drawWaveform an buf t style preset transp fd c
        = drawWaveform an buf t style preset transp None c).
Proof.
  destruct (cleared_facts transp c) as (Hd & _).
  split; intros Hstyle.
  - exists (cleared transp c). split; [|exact Hd].
    rewrite drawWaveform_cases.
    destruct style; try discriminate Hstyle; reflexivity.
  - intros fd. rewrite !drawWaveform_cases.
    destruct style; try discriminate Hstyle; reflexivity.
Qed.

End Repaint.

Lemma drawWaveform_without_snapshot_witness :
  (exists c',
     @drawWaveform example_math None example_buffer 1 Equalizer Synthwave
       false None used_canvas = (Returned tt, c')
     /\ display c' = [PFillRect (Color "#111827") 1 0 0 1280 720])
  /\ @drawWaveform example_math None example_buffer 1 Line Synthwave false
       (Some snapshot_bass) used_canvas
     = @drawWaveform example_math None example_buffer 1 Line Synthwave false
         None used_canvas.
Proof.
  destruct (@drawWaveform_without_snapshot example_math None example_buffer 1
              Equalizer Synthwave false used_canvas) as (Hnone & _).
  destruct (@drawWaveform_without_snapshot example_math None example_buffer 1
              Line Synthwave false used_canvas) as (_ & Hline).
  split.
  - apply Hnone. reflexivity.
  - apply Hline. reflexivity.
Defined.

(** ** The Circle style *)




Section CircleStyle.

Context {M : MathLib}.


End CircleStyle.


(** ** The window of the line styles *)

Lemma startSample_early (csi w : Z) :
  inject_Z csi - inject_Z w / 2 <= 0 -> startSample csi w = 0.
Proof.
  intros Hle. unfold startSample, Qmax, GenericMinMax.gmax.
  destruct (0 ?= inject_Z csi - inject_Z w / 2) eqn:E; try reflexivity.
  exfalso. rewrite <- Qlt_alt in E. exact (Qlt_not_le _ _ E Hle).
Qed.

Lemma startSample_late (csi m : Z) :
  (m <= csi)%Z -> startSample csi (2 * m) == inject_Z (csi - m).
Proof.
  intros Hle. unfold startSample.
  assert (E : inject_Z csi - inject_Z (2 * m) / 2 == inject_Z (csi - m)).
  { unfold Z.sub. rewrite inject_Z_plus, inject_Z_opp, inject_Z_mult.
    change (inject_Z 2) with 2. field. }
  rewrite E. apply Q.max_r.
  change 0 with (inject_Z 0). rewrite <- Zle_Qle. lia.
Qed.

Lemma sample_or_0_comp (data : list Q) (a b : Q) :
  a == b -> sample_or_0 data a = sample_or_0 data b.
Proof.
  intros E. unfold sample_or_0, typed_get.
  rewrite (Qfloor_comp _ _ E).
  replace (Qeq_bool a (inject_Z (Qfloor b)))
    with (Qeq_bool b (inject_Z (Qfloor b))); [reflexivity|].
  destruct (Qeq_bool b (inject_Z (Qfloor b))) eqn:Eb.
  - symmetry. apply Qeq_bool_iff. rewrite E. now apply Qeq_bool_iff.
  - destruct (Qeq_bool a (inject_Z (Qfloor b))) eqn:Ea; [|reflexivity].
    apply Qeq_bool_iff in Ea. rewrite E in Ea.
    apply Qeq_bool_iff in Ea. congruence.
Qed.

Lemma polyline_ext (amp1 amp2 : nat -> Q) (w : Z) (H : Q) (refl : bool) :
  (forall i, amp1 i = amp2 i) ->
  polyline amp1 w H refl = polyline amp2 w H refl.
Proof.
  intros E. unfold polyline. apply map_ext. intros i. now rewrite E.
Qed.

Lemma line_strokes_ext (style : WaveformStyle) (p : Paint) (alpha : Q)
  (amp1 amp2 : nat -> Q) (w : Z) (H : Q) :
  (forall i, amp1 i = amp2 i) ->
  line_strokes style p alpha amp1 w H = line_strokes style p alpha amp2 w H.
Proof.
  intros E. unfold line_strokes.
  now rewrite !(@polyline_ext amp1 amp2 w H _ E).
Qed.

Section LineWindow.

Context {M : MathLib}.

(** X9.  In the line styles the window of samples starts at
    [max(0, currentSampleIndex - width / 2)]: as long as the current sample
    index is at most half the canvas width the window stays on the first
    samples of the signal, so that all positions that early render the very
    same frame. *)
Theorem line_frames_are_frozen_until_half_width (an : option AnalyserNode)
  (buf : AudioBuffer) (t1 t2 : Q) (style : WaveformStyle)
  (preset : ColorPreset) (transp : bool) (fd : option (list Byte.byte))
  (c : Context2D) :
  is_line_style style = true ->
  inject_Z (Qfloor (t1 * sampleRate buf)) - inject_Z (width c) / 2 <= 0 ->
  inject_Z (Qfloor (t2 * sampleRate buf)) - inject_Z (width c) / 2 <= 0 ->
  drawWaveform an buf t1 style preset transp fd c
  = drawWaveform an buf t2 style preset transp fd c.
Proof.
  intros Hstyle H1 H2. rewrite !drawWaveform_cases. cbv zeta.
  assert (E : case_Lines style preset (channelData0 buf)
                (Qfloor (t1 * sampleRate buf))
                (inject_Z (width c)) (inject_Z (height c))
              = case_Lines style preset (channelData0 buf)
                  (Qfloor (t2 * sampleRate buf))
                  (inject_Z (width c)) (inject_Z (height c))).
  { unfold case_Lines, drawLine. rewrite Qfloor_Z.
    rewrite (startSample_early H1), (startSample_early H2).
    reflexivity. }
  destruct style; try discriminate Hstyle; now rewrite E.
Qed.

(** X10.  Once the window has left the start of the signal, on a canvas of
    even width [2 m], column [i] of the polyline shows sample
    [currentSampleIndex - m + i]: the current sample is drawn at the
    horizontal centre, samples inside the signal are shown as they are and
    indices past the end as silence. *)
Theorem line_window_is_centred_on_the_current_sample
  (an : option AnalyserNode) (buf : AudioBuffer) (t : Q)
  (style : WaveformStyle) (preset : ColorPreset) (transp : bool)
  (fd : option (list Byte.byte)) (c : Context2D) (m : Z) :
  is_line_style style = true ->
  width c = (2 * m)%Z ->
  (m <= Qfloor (t * sampleRate buf))%Z ->
  let csi := Qfloor (t * sampleRate buf) in
  let data := channelData0 buf in
  let shown (i : nat) := sample_or_0 data (inject_Z (csi - m + Z.of_nat i)) in
  (exists p c',
     drawWaveform an buf t style preset transp fd c = (Returned tt, c')
     /\ display c'
        = background transp (globalAlpha c)
            (inject_Z (width c)) (inject_Z (height c))
          ++ line_strokes style p (globalAlpha c) shown (width c)
               (inject_Z (height c)))
  /\ (forall i k, (Z.of_nat k = csi - m + Z.of_nat i)%Z ->
                  (k < List.length data)%nat -> shown i = nth k data 0)
  /\ (forall i, (Z.of_nat (List.length data) <= csi - m + Z.of_nat i)%Z ->
                shown i = 0).
Proof.
  intros Hstyle Hw Hm csi data shown.
  split; [|split].
  - destruct (@drawWaveform_lines M an buf t style preset transp fd c Hstyle)
      as (c' & Hrun & Hdisp).
    eexists. exists c'. split; [exact Hrun|]. rewrite Hdisp.
    f_equal. apply line_strokes_ext. intros i.
    unfold column_amplitude, shown. apply sample_or_0_comp.
    rewrite Hw, (startSample_late Hm). fold csi.
    rewrite <- inject_Z_plus. reflexivity.
  - intros i k Hk Hlen. unfold shown. rewrite <- Hk.
    now apply sample_or_0_inside.
  - intros i Hpast. unfold shown. apply sample_or_0_outside. right.
    rewrite <- Zle_Qle. exact Hpast.
Qed.

(** X11.  In the ReflectedLine style the second polyline is the mirror
    image of the first about the horizontal midline of the canvas, drawn at
    half opacity; and when the samples lie between -1 and 1, every point
    of the first polyline lies between a quarter and three quarters of the
    canvas height. *)
Theorem reflected_line_is_the_mirror_image (an : option AnalyserNode)
  (buf : AudioBuffer) (t : Q) (preset : ColorPreset) (transp : bool)
  (fd : option (list Byte.byte)) (c : Context2D) :
  (0 <= height c)%Z ->
  let H := inject_Z (height c) in
  exists p path path' c',
    drawWaveform an buf t ReflectedLine preset transp fd c = (Returned tt, c')
    /\ display c'
       = background transp (globalAlpha c) (inject_Z (width c)) H
         ++ [PStroke p (globalAlpha c) 2 path; PStroke p (1 # 2) 2 path']
    /\ Forall2 (mirrored H) path path'
    /\ (Forall (fun a => - (1) <= a /\ a <= 1) (channelData0 buf) ->
        Forall (fun op => H * (1 # 4) <= op_y op /\ op_y op <= H * (3 # 4))
               path).
Proof.
  intros Hpos H.
  destruct (@drawWaveform_lines M an buf t ReflectedLine preset transp fd c
              eq_refl) as (c' & Hrun & Hdisp).
  eexists. eexists. eexists. exists c'.
  split; [exact Hrun|]. split; [exact Hdisp|].
  assert (HH : 0 <= H).
  { unfold H. change 0 with (inject_Z 0). now rewrite <- Zle_Qle. }
  split.
  - unfold polyline.
    induction (seq 0 (Z.to_nat (width c))) as [|i l IH]; cbn [map];
      constructor; [|exact IH].
    destruct (Nat.eqb i 0); unfold mirrored; cbv beta iota zeta; fold H;
      (split; [reflexivity | field]).
  - intros Hdata. unfold polyline. apply Forall_forall.
    intros op Hop. apply in_map_iff in Hop. destruct Hop as (i & <- & _).
    fold H. set (a := column_amplitude buf t (width c) i).
    assert (Ha : - (1) <= a /\ a <= 1).
    { unfold a, column_amplitude, sample_or_0.
      destruct (typed_get _ _) as [s|] eqn:Es; [|split; discriminate].
      unfold typed_get in Es.
      destruct (Qeq_bool _ _ && _) in Es; [|discriminate Es].
      rewrite Forall_forall in Hdata. apply Hdata.
      eapply nth_error_In; exact Es. }
    destruct Ha as (Ha0 & Ha1).
    assert (Hy : H * (1 # 4) <= a * H / 4 + H / 2
                 /\ a * H / 4 + H / 2 <= H * (3 # 4)).
    { split.
      - setoid_replace (a * H / 4 + H / 2)
          with (H * (1 # 4) + (a + 1) * H * (1 # 4)) by field.
        rewrite <- (Qplus_0_r (H * (1 # 4))) at 1. apply Qplus_le_r.
        apply Qmult_le_0_compat; [|discriminate].
        apply Qmult_le_0_compat; [|exact HH].
        setoid_replace 0 with (- (1) + 1) by ring. now apply Qplus_le_l.
      - setoid_replace (H * (3 # 4))
          with (a * H / 4 + H / 2 + (1 - a) * H * (1 # 4)) by field.
        rewrite <- (Qplus_0_r (a * H / 4 + H / 2)) at 1. apply Qplus_le_r.
        apply Qmult_le_0_compat; [|discriminate].
        apply Qmult_le_0_compat; [|exact HH].
        setoid_replace 0 with (a - a) by ring. unfold Qminus.
        now apply Qplus_le_l. }
    destruct (Nat.eqb i 0); exact Hy.
Qed.

End LineWindow.

Lemma line_frames_are_frozen_until_half_width_witness :
  @drawWaveform example_math None example_buffer 0 Line Emerald false None
    (fresh 1280 720)
  = @drawWaveform example_math None example_buffer 1 Line Emerald false None
      (fresh 1280 720).
Proof.
  apply (@line_frames_are_frozen_until_half_width example_math None
           example_buffer 0 1 Line Emerald false None (fresh 1280 720)).
  - reflexivity.
  - vm_compute. discriminate.
  - vm_compute. discriminate.
Defined.

Lemma line_window_is_centred_on_the_current_sample_witness :
  sample_or_0 (channelData0 example_buffer) (inject_Z (3 - 2 + Z.of_nat 2))
  = nth 3 (channelData0 example_buffer) 0.
Proof.
  destruct (@line_window_is_centred_on_the_current_sample example_math None
              example_buffer 1 Line Emerald false None (fresh 4 8) 2)
    as (_ & Hin & _).
  - reflexivity.
  - reflexivity.
  - vm_compute. discriminate.
  - apply (Hin 2%nat 3%nat); [reflexivity | vm_compute; lia].
Defined.

Lemma reflected_line_is_the_mirror_image_witness :
  exists p path path' c',
    @drawWaveform example_math None example_buffer 1 ReflectedLine Emerald
      true None (fresh 4 8) = (Returned tt, c')
    /\ display c' = [PStroke p 1 2 path; PStroke p (1 # 2) 2 path']
    /\ Forall2 (mirrored (inject_Z 8)) path path'
    /\ Forall (fun op => inject_Z 8 * (1 # 4) <= op_y op
                         /\ op_y op <= inject_Z 8 * (3 # 4)) path.
Proof.
  destruct (@reflected_line_is_the_mirror_image example_math None
              example_buffer 1 Emerald true None (fresh 4 8))
    as (p & path & path' & c' & Hrun & Hdisp & Hmirror & Hrange).
  - discriminate.
  - exists p, path, path', c'. repeat split; try assumption.
    apply Hrange. repeat constructor; discriminate.
Defined.

(** ** The recording loop: progress *)

Lemma nondecreasing_progress (f : Q -> Q) (top : Q) (l : list Q) :
  (forall a b, a <= b -> f a <= f b) ->
  (forall a, In a l -> f a <= top) ->
  nondecreasing l ->
  nondecreasing (map f l ++ [top]).
Proof.
  intros Hmono Htop. induction l as [|a l IH]; intros Hl; [exact I|].
  destruct l as [|b l].
  - cbn. split; [apply Htop; now left | exact I].
  - destruct Hl as (Hab & Hrest). cbn [map app nondecreasing].
    split; [now apply Hmono|].
    apply IH; [|exact Hrest]. intros a0 H0. apply Htop. now right.
Qed.

Lemma last_app_singleton {A} (l : list A) (a d : A) : last (l ++ [a]) d = a.
Proof.
  induction l as [|b l IH]; [reflexivity|].
  cbn [app]. destruct (l ++ [a]) eqn:E; [now destruct l|].
  cbn [last]. exact IH.
Qed.

Section Progress.

Context {M : MathLib}.

(** X12.  When the clock never runs backwards, the values a recording
    passes to [setExportProgress] never decrease, stay between 0 and 100,
    and end with 100. *)
Theorem export_progress_never_decreases
  (a : AnalyserNode) (x : ExportClosure) (startTime : Q)
  (pre : list Tick) (last_tick : Tick) (post : list Tick)
  (canvas : option Context2D) :
  let D := duration (x_buffer x) in
  0 < D ->
  (forall tk, In tk pre -> elapsed startTime (fst tk) < D) ->
  D <= elapsed startTime (fst last_tick) ->
  (forall tk, In tk pre -> startTime <= fst tk) ->
  nondecreasing (map fst pre) ->
  exists reports,
    progress_reports
      (fst (export_loop (Some a) x startTime (pre ++ last_tick :: post)
              canvas))
    = map Some reports
    /\ nondecreasing reports
    /\ Forall (fun q => 0 <= q /\ q <= 100) reports
    /\ last reports 0 = 100.
Proof.
  intros D HD Hpre Hlast Hstart Hsorted.
  set (f := fun now : Q => elapsed startTime now / D * 100).
  exists (map f (map fst pre) ++ [100]).
  assert (Hmono : forall p q, p <= q -> f p <= f q).
  { intros p q Hpq. unfold f, elapsed, Qdiv.
    apply Qmult_le_compat_r; [|discriminate].
    apply Qmult_le_compat_r;
      [|apply Qlt_le_weak, Qinv_lt_0_compat; exact HD].
    apply Qmult_le_compat_r; [|discriminate].
    now apply Qplus_le_l. }
  assert (Htop : forall tk, In tk pre -> f (fst tk) <= 100).
  { intros tk Htk. unfold f.
    rewrite <- (Qmult_1_l 100) at 2. apply Qmult_le_compat_r; [|discriminate].
    apply Qle_shift_div_r; [exact HD|]. rewrite Qmult_1_l.
    apply Qlt_le_weak. now apply Hpre. }
  assert (Hbot : forall tk, In tk pre -> 0 <= f (fst tk)).
  { intros tk Htk. unfold f, elapsed.
    apply Qmult_le_0_compat; [|discriminate].
    apply Qle_shift_div_l; [exact HD|]. rewrite Qmult_0_l.
    apply Qle_shift_div_l; [reflexivity|]. rewrite Qmult_0_l.
    unfold Qminus. rewrite <- (Qplus_opp_r startTime).
    apply Qplus_le_l. now apply Hstart. }
  split; [|split; [|split]].
  - rewrite export_loop_trace by assumption.
    rewrite progress_reports_app, progress_reports_frames.
    rewrite map_app, !map_map. reflexivity.
  - apply nondecreasing_progress; [exact Hmono| |exact Hsorted].
    intros q Hq. apply in_map_iff in Hq. destruct Hq as (tk & <- & Htk).
    now apply Htop.
  - apply Forall_app. split.
    + apply Forall_forall. intros q Hq.
      apply in_map_iff in Hq. destruct Hq as (now & <- & Hnow).
      apply in_map_iff in Hnow. destruct Hnow as (tk & <- & Htk).
      split; [now apply Hbot | now apply Htop].
    + constructor; [split; discriminate | constructor].
  - apply last_app_singleton.
Qed.

End Progress.

Lemma export_progress_never_decreases_witness :
  exists reports,
    progress_reports
      (fst (@export_loop example_math (Some createAnalyser_2048)
              example_closure 0 ticks_a (Some (fresh 4 8))))
    = map Some reports
    /\ nondecreasing reports /\ last reports 0 = 100.
Proof.
  destruct (@export_progress_never_decreases example_math
              createAnalyser_2048 example_closure 0
              [(0, []); (16, []); (50, [])] (2000, []) [(2016, [])]
              (Some (fresh 4 8)))
    as (reports & Hrep & Hmono & _ & Hlast).
  - reflexivity.
  - intros tk Htk. cbn [In] in Htk.
    repeat (destruct Htk as [<- | Htk]; [reflexivity|]). destruct Htk.
  - vm_compute. discriminate.
  - intros tk Htk. cbn [In] in Htk.
    repeat (destruct Htk as [<- | Htk]; [vm_compute; discriminate|]).
    destruct Htk.
  - cbn. repeat split; vm_compute; discriminate.
  - exists reports. split; [exact Hrep|]. split; [exact Hmono | exact Hlast].
Defined.

(** ** The component: what every reachable state satisfies *)

Lemma nth_error_update_nth {A} (f : A -> A) (l : list A) :
  forall k i,
    nth_error (update_nth k f l) i
    = if Nat.eqb i k then option_map f (nth_error l i) else nth_error l i.
Proof.
  induction l as [|a l IH]; intros k i.
  - destruct k, i; cbn; try reflexivity.
    destruct (Nat.eqb i k); reflexivity.
  - destruct k as [|k], i as [|i];
      cbn [update_nth nth_error Nat.eqb option_map]; try reflexivity.
    apply IH.
Qed.

Section Reachable.

Context {M : MathLib}.

Lemma drawWaveform_canvas_ok (an : option AnalyserNode) (buf : AudioBuffer)
  (t : Q) (style : WaveformStyle) (preset : ColorPreset) (transp : bool)
  (fd : option (list Byte.byte)) (c : Context2D) :
  width c = CANVAS_WIDTH -> height c = CANVAS_HEIGHT -> globalAlpha c = 1 ->
  let c' := snd (drawWaveform an buf t style preset transp fd c) in
  width c' = CANVAS_WIDTH /\ height c' = CANVAS_HEIGHT /\ globalAlpha c' = 1.
Proof.
  intros Hw Hh Ha. cbv zeta. rewrite drawWaveform_cases. cbv zeta.
  destruct (cleared_facts transp c) as (_ & Ea & Ew & Eh).
  rewrite <- Hw, <- Hh, <- Ew, <- Eh.
  split; [|split].
  - destruct style;
      first [ apply grows_case_Lines | apply grows_case_Bars
            | apply grows_case_Circle | apply grows_case_Pulse ].
  - destruct style;
      first [ apply grows_case_Lines | apply grows_case_Bars
            | apply grows_case_Circle | apply grows_case_Pulse ].
  - rewrite <- Ea in Ha.
    destruct style;
      (etransitivity;
       [ first [ apply case_Lines_alpha
               | apply same_alpha_case_Bars
               | apply same_alpha_case_Circle
               | apply same_alpha_case_Pulse ]
       | cbn [style_eqb]; first [reflexivity | exact Ha] ]).
Qed.

Lemma recordAnimation_canvas_ok (an : option AnalyserNode)
  (x : ExportClosure) (s : Q) (tick : Tick) (ctx : Context2D) :
  width ctx = CANVAS_WIDTH -> height ctx = CANVAS_HEIGHT ->
  globalAlpha ctx = 1 ->
  exists ctx',
    snd (recordAnimation an x s tick (Some ctx)) = Some ctx'
    /\ width ctx' = CANVAS_WIDTH /\ height ctx' = CANVAS_HEIGHT
    /\ globalAlpha ctx' = 1.
Proof.
  intros Hw Hh Ha. destruct tick as [now spectrum]. unfold recordAnimation.
  destruct (Qltb _ _); [|exists ctx; repeat split; assumption].
  lazymatch goal with
  | |- context [drawWaveform ?an ?b ?t ?st ?p ?tr ?fd ctx] =>
      pose proof (@drawWaveform_canvas_ok an b t st p tr fd ctx Hw Hh Ha)
        as Hok;
      cbv zeta in Hok;
      destruct (drawWaveform an b t st p tr fd ctx) as [[u|e] ctx']
  end; exists ctx'; split; try reflexivity; exact Hok.
Qed.

Lemma recordAnimation_final (an : option AnalyserNode) (x : ExportClosure)
  (s : Q) (tick : Tick) (canvas : option Context2D) :
  duration (x_buffer x) <= elapsed s (fst tick) ->
  recordAnimation an x s tick canvas = (final_effects, canvas).
Proof.
  intros Hge. destruct tick as [now spectrum]. cbn [fst] in Hge.
  unfold recordAnimation. fold (elapsed s now).
  rewrite (proj2 (Qltb_ge _ _) Hge). reflexivity.
Qed.


Lemma invariant_canvas_dispatch (e : Event) (st : App) :
  invariant_canvas st -> invariant_canvas (dispatch e st).
Proof.
  intros H. pose proof H as (ctx & Hc & Hw & Hh & Ha).
  destruct e; cbn [dispatch].
  - unfold handleFileChange_begin. destruct selectedFile; exact H.
  - unfold handleFileChange_settled. destruct decoded; [|exact H].
    cbn [analyserNode with_audio]. destruct (analyserNode st); exact H.
  - exact H.
  - exact H.
  - exact H.
  - unfold click_CreateVideo. destruct (createVideo_enabled st); [|exact H].
    unfold handleExport. rewrite Hc. destruct (audioBuffer st); exact H.
  - unfold animation_frame. rewrite Hc.
    destruct (nth_error (jobs st) k) as [j|]; [|exact H].
    destruct (job_frame_requested j); [|exact H].
    cbn [context2d].
    lazymatch goal with
    | |- context [recordAnimation ?an ?x ?s ?tk (Some ctx)] =>
        destruct (@recordAnimation_canvas_ok an x s tk ctx Hw Hh Ha)
          as (ctx' & Hsnd & Hok);
        destruct (recordAnimation an x s tk (Some ctx)) as [effects context']
    end.
    cbn [snd] in Hsnd. subst context'.
    exists ctx'. split; [reflexivity | exact Hok].
  - unfold recorder_onstop.
    destruct (nth_error (jobs st) k) as [j|]; [|exact H].
    destruct (job_stop_pending j); exact H.
  - unfold preview_frame. rewrite Hc.
    destruct (audioBuffer st) as [buf|]; [|exact H].
    cbn [context2d].
    eexists. split; [reflexivity|].
    cbv zeta. now apply drawWaveform_canvas_ok.
Qed.


Lemma invariant_canvas_run (events : list Event) :
  forall st, invariant_canvas st -> invariant_canvas (run events st).
Proof.
  induction events as [|e events IH]; intros st Hst; [exact Hst|].
  cbn [run fold_left]. apply IH. now apply invariant_canvas_dispatch.
Qed.


Lemma job_closure_dispatch (e : Event) (st : App) (k : nat) (j : ExportJob) :
  nth_error (jobs st) k = Some j ->
  exists j',
    nth_error (jobs (dispatch e st)) k = Some j'
    /\ job_closure j' = job_closure j.
Proof.
  intros Hk.
  assert (Hsame : exists j', nth_error (jobs st) k = Some j'
                             /\ job_closure j' = job_closure j)
    by (exists j; split; [exact Hk | reflexivity]).
  destruct e; cbn [dispatch].
  - unfold handleFileChange_begin. destruct selectedFile; exact Hsame.
  - unfold handleFileChange_settled. destruct decoded; [|exact Hsame].
    cbn [analyserNode with_audio]. destruct (analyserNode st); exact Hsame.
  - exact Hsame.
  - exact Hsame.
  - exact Hsame.
  - unfold click_CreateVideo. destruct (createVideo_enabled st);
      [|exact Hsame].
    unfold handleExport.
    destruct (canvasRef st); [|exact Hsame].
    destruct (audioBuffer st); [|exact Hsame].
    exists j. split; [|reflexivity].
    cbn [jobs with_jobs]. rewrite nth_error_app1; [exact Hk|].
    apply nth_error_Some. rewrite Hk. discriminate.
  - unfold animation_frame.
    destruct (nth_error (jobs st) k0) as [j0|] eqn:E0; [|exact Hsame].
    destruct (canvasRef st) as [canvas|]; [|exact Hsame].
    destruct (job_frame_requested j0); [|exact Hsame].
    destruct (recordAnimation _ _ _ _ _) as [effects context'].
    cbn [jobs with_jobs]. rewrite nth_error_update_nth, Hk.
    destruct (Nat.eqb k k0); eexists; split; reflexivity.
  - unfold recorder_onstop.
    destruct (nth_error (jobs st) k0) as [j0|] eqn:E0; [|exact Hsame].
    destruct (job_stop_pending j0); [|exact Hsame].
    cbn [jobs with_jobs]. rewrite nth_error_update_nth, Hk.
    destruct (Nat.eqb k k0); eexists; split; reflexivity.
  - unfold preview_frame.
    destruct (canvasRef st) as [canvas|]; [|exact Hsame].
    destruct (audioBuffer st) as [buf|]; [|exact Hsame].
    destruct (context2d canvas); exact Hsame.
Qed.

(** X13.  Whatever the user and the browser do, the canvas of the
    component keeps its context, its 1280 by 720 size and a global alpha of
    1 between two callbacks. *)
Theorem canvas_keeps_size_and_full_opacity (events : list Event) :
  exists ctx,
    canvasRef (run events initial_App) = Some {| context2d := Some ctx |}
    /\ width ctx = 1280%Z /\ height ctx = 720%Z /\ globalAlpha ctx = 1.
Proof.
  apply (invariant_canvas_run events (st := initial_App)).
  exists (fresh CANVAS_WIDTH CANVAS_HEIGHT). repeat split.
Qed.



(** X16.  In a state the component can reach, a preview render of the
    loaded signal returns normally in every style: the snapshot it draws
    is either absent or holds the 1024 bins of the analyser. *)
Theorem preview_never_throws (events : list Event) (buf : AudioBuffer)
  (t : Q) (spectrum : list Byte.byte) (ctx : Context2D) :
  let st := run events initial_App in
  audioBuffer st = Some buf ->
  thrown
    (drawWaveform (analyserNode st) buf t (waveformStyle st)
       (colorPreset st) (isTransparent st)
       match analyserNode st, frequencyData st with
       | Some a, Some _ => Some (getByteFrequencyData a spectrum)
       | _, other => other
       end ctx)
  = None.
Proof.
  intros st Hbuf.
  destruct (invariant_run events invariant_initial)
    as (Han & Hsome & _).
  fold st in Han, Hsome.
  destruct (analyserNode st) as [a|] eqn:Ea.
  - destruct Han as [Han|Han]; [discriminate Han|]. injection Han as ->.
    lazymatch goal with
    | |- thrown (drawWaveform _ ?b ?t ?sty ?p ?tr ?fd ctx) = None =>
        destruct (@drawWaveform_returns M createAnalyser_2048 b t sty p tr fd)
          with (c := ctx) as (u & ctx' & Hrun)
    end.
    + intros l Hl. destruct (frequencyData st); [|discriminate Hl].
      injection Hl as <-. rewrite length_getByteFrequencyData.
      vm_compute. lia.
    + rewrite Hrun. reflexivity.
  - exfalso. apply Hsome; [|reflexivity]. rewrite Hbuf. discriminate.
Qed.

(** X17.  The buffer, style, colours and background of an export are fixed
    when it is started: no later event, whether a change of the settings,
    another file or another export, changes the closure of a job that
    exists. *)
Theorem export_closure_is_fixed_at_the_start (events : list Event) :
  forall (st : App) (k : nat) (j : ExportJob),
    nth_error (jobs st) k = Some j ->
    exists j',
      nth_error (jobs (run events st)) k = Some j'
      /\ job_closure j' = job_closure j.
Proof.
  induction events as [|e events IH]; intros st k j Hk.
  - exists j. split; [exact Hk | reflexivity].
  - cbn [run fold_left].
    destruct (job_closure_dispatch e st k Hk) as (j1 & Hk1 & Hc1).
    destruct (IH (dispatch e st) k j1 Hk1) as (j2 & Hk2 & Hc2).
    exists j2. split; [exact Hk2 | congruence].
Qed.

(** X18.  The callback that finds the duration elapsed since the start
    time [s] of its job (the clock reading of the first callback) ends the
    export:
    it stops the source and the recorder, requests no further frame and
    sets the progress to 100; the [stop] event that follows clears
    [isExporting], publishes the video and leaves the progress at 100; and
    a late animation frame of that job changes nothing. *)
Theorem export_ends_once_the_duration_elapsed (st : App) (k : nat)
  (j : ExportJob) (canvas : HTMLCanvasElement) (s t0 t1 : Q)
  (spectrum : list Byte.byte) :
  nth_error (jobs st) k = Some j ->
  canvasRef st = Some canvas ->
  job_frame_requested j = true ->
  job_recorder j = Recording ->
  s = match job_startTime j with Some s0 => s0 | None => t0 end ->
  duration (x_buffer (job_closure j)) <= elapsed s t1 ->
  let st1 := dispatch (AnimationFrame k t0 t1 spectrum) st in
  let st2 := dispatch (RecorderStopped k) st1 in
  (exists j1,
     nth_error (jobs st1) k = Some j1
     /\ job_recorder j1 = Inactive /\ job_stop_pending j1 = true
     /\ job_source_playing j1 = false /\ job_frame_requested j1 = false)
  /\ exportProgress st1 = Some 100
  /\ isExporting st1 = isExporting st
  /\ isExporting st2 = false
  /\ exportedVideoUrl st2 = Some k
  /\ exportProgress st2 = Some 100
  /\ (forall t0' t1' spectrum',
        dispatch (AnimationFrame k t0' t1' spectrum') st2 = st2).
Proof.
  intros Hk Hc Hreq Hrec Hs Hge st1 st2.
  assert (E1 : st1
               = with_jobs
                   (update_nth k (job_after final_effects s) (jobs st))
                   (with_export (isExporting st) (Some 100)
                      (exportedVideoUrl st)
                      (with_canvas
                         (Some {| context2d := context2d canvas |}) st))).
  { unfold st1. cbn [dispatch]. unfold animation_frame.
    rewrite Hk, Hc, Hreq, <- Hs.
    rewrite recordAnimation_final by exact Hge. reflexivity. }
  assert (Hk1 : nth_error (jobs st1) k = Some (job_after final_effects s j)).
  { rewrite E1. cbn [jobs with_jobs].
    rewrite nth_error_update_nth, Nat.eqb_refl, Hk. reflexivity. }
  assert (E2 : st2
               = with_jobs (update_nth k job_stopped (jobs st1))
                   (with_export false (exportProgress st1) (Some k) st1)).
  { unfold st2. cbn [dispatch]. unfold recorder_onstop.
    rewrite Hk1. unfold job_after at 1. cbn [job_stop_pending existsb
      final_effects orb andb]. rewrite Hrec. reflexivity. }
  split; [|split; [|split; [|split; [|split; [|split]]]]].
  - exists (job_after final_effects s j). split; [exact Hk1|].
    unfold job_after. cbn. rewrite Hrec. repeat split.
  - rewrite E1. reflexivity.
  - rewrite E1. reflexivity.
  - rewrite E2. reflexivity.
  - rewrite E2. reflexivity.
  - rewrite E2. cbn [exportProgress with_jobs with_export].
    rewrite E1. reflexivity.
  - intros t0' t1' spectrum'. cbn [dispatch]. unfold animation_frame.
    assert (Hk2 : nth_error (jobs st2) k
                  = Some (job_stopped (job_after final_effects s j))).
    { rewrite E2. cbn [jobs with_jobs].
      rewrite nth_error_update_nth, Nat.eqb_refl, Hk1. reflexivity. }
    rewrite Hk2. destruct (canvasRef st2); reflexivity.
Qed.

(** X19.  Choosing a file whose decoding fails leaves the component without
    a signal and without the button that starts an export; a successful
    decoding stores the buffer and makes the button available unless an
    export is running; in both cases the jobs and [isExporting] are left
    alone, and the session analyser, once created, is kept. *)
Theorem file_load_outcomes (st : App) (decoded : option AudioBuffer) :
  let st' := dispatch (DecodeSettled decoded)
               (dispatch (FileChosen true) st) in
  audioBuffer st' = decoded
  /\ isLoading st' = false
  /\ exportedVideoUrl st' = None
  /\ createVideo_enabled st'
     = match decoded with
       | Some _ => negb (isExporting st)
       | None => false
       end
  /\ jobs st' = jobs st
  /\ isExporting st' = isExporting st
  /\ analyserNode st'
     = match decoded, analyserNode st with
       | Some _, None => Some createAnalyser_2048
       | _, a => a
       end
  /\ dispatch (FileChosen false) st = st.
Proof.
  cbv zeta. cbn [dispatch]. unfold handleFileChange_begin.
  destruct decoded as [b|]; cbn [handleFileChange_settled].
  - cbn [analyserNode with_audio with_export].
    destruct (analyserNode st) as [a|] eqn:Ea;
      unfold createVideo_enabled; cbn; rewrite ?Ea;
      repeat split; destruct (isExporting st); reflexivity.
  - unfold createVideo_enabled; cbn.
    repeat split; try (destruct (analyserNode st); reflexivity).
Qed.

End Reachable.


Lemma preview_never_throws_witness :
  let st := @run example_math
              [FileChosen true; DecodeSettled (Some example_buffer)]
              initial_App in
  audioBuffer st = Some example_buffer
  /\ thrown
       (@drawWaveform example_math (analyserNode st) example_buffer 0
          (waveformStyle st) (colorPreset st) (isTransparent st)
          match analyserNode st, frequencyData st with
          | Some a, Some _ => Some (getByteFrequencyData a [])
          | _, other => other
          end (fresh 4 8))
     = None.
Proof.
  split; [reflexivity|].
  apply (@preview_never_throws example_math
           [FileChosen true; DecodeSettled (Some example_buffer)]
           example_buffer 0 [] (fresh 4 8)).
  reflexivity.
Defined.

Lemma export_closure_is_fixed_at_the_start_witness :
  let st := @run example_math
              [FileChosen true; DecodeSettled (Some example_buffer);
               ClickCreateVideo] initial_App in
  exists j j',
    nth_error (jobs st) 0 = Some j
    /\ nth_error
         (jobs (@run example_math
                  [SetWaveformStyle Pulse; ToggleTransparent;
                   FileChosen true] st)) 0 = Some j'
    /\ job_closure j' = job_closure j.
Proof.
  intros st.
  exists (new_job example_buffer
            (@run example_math
               [FileChosen true; DecodeSettled (Some example_buffer)]
               initial_App)).
  destruct (@export_closure_is_fixed_at_the_start example_math
              [SetWaveformStyle Pulse; ToggleTransparent; FileChosen true]
              st 0
              (new_job example_buffer
                 (@run example_math
                    [FileChosen true; DecodeSettled (Some example_buffer)]
                    initial_App)))
    as (j' & Hk & Hc).
  - reflexivity.
  - exists j'. split; [reflexivity|]. split; [exact Hk | exact Hc].
Defined.

Lemma export_ends_once_the_duration_elapsed_witness :
  let st := @run example_math
              [FileChosen true; DecodeSettled (Some example_buffer);
               ClickCreateVideo] initial_App in
  let st1 := @dispatch example_math (AnimationFrame 0 0 2000 []) st in
  let st2 := @dispatch example_math (RecorderStopped 0) st1 in
  isExporting st = true
  /\ exportProgress st1 = Some 100
  /\ isExporting st2 = false
  /\ exportedVideoUrl st2 = Some 0%nat.
Proof.
  intros st st1 st2.
  destruct (@export_ends_once_the_duration_elapsed example_math st 0
              (new_job example_buffer
                 (@run example_math
                    [FileChosen true; DecodeSettled (Some example_buffer)]
                    initial_App))
              {| context2d := Some (fresh CANVAS_WIDTH CANVAS_HEIGHT) |}
              0 0 2000 [])
    as (_ & Hp1 & _ & He2 & Hu2 & _).
  - reflexivity.
  - reflexivity.
  - reflexivity.
  - reflexivity.
  - reflexivity.
  - vm_compute. discriminate.
  - split; [reflexivity|]. split; [exact Hp1|].
    split; [exact He2 | exact Hu2].
Defined.

(** ** The name of the downloaded file *)

Lemma split_on_cons (sep : Ascii.ascii) (s : string) :
  exists piece pieces, split_on sep s = piece :: pieces.
Proof.
  destruct s as [|ch rest]; cbn [split_on]; [now eexists; eexists|].
  destruct (Ascii.eqb ch sep); [now eexists; eexists|].
  destruct (split_on sep rest); now eexists; eexists.
Qed.

Lemma split_on_app (sep : Ascii.ascii) (a b : string) :
  split_on sep (a ++ String sep b)%string
  = (split_on sep a ++ split_on sep b)%list.
Proof.
  induction a as [|ch a IH]; cbn [String.append split_on].
  - now rewrite Ascii.eqb_refl.
  - destruct (Ascii.eqb ch sep); [now rewrite IH|].
    rewrite IH. destruct (split_on_cons sep a) as (p & ps & ->).
    reflexivity.
Qed.

Lemma split_on_absent (sep : Ascii.ascii) (s : string) :
  contains sep s = false -> split_on sep s = [s].
Proof.
  induction s as [|ch s IH]; cbn [contains split_on]; [reflexivity|].
  intros H. apply orb_false_iff in H. destruct H as (Hch & Hs).
  rewrite Hch, (IH Hs). reflexivity.
Qed.

Lemma join_split_on (sep : Ascii.ascii) (s : string) :
  join (String sep EmptyString) (split_on sep s) = s.
Proof.
  induction s as [|ch s IH]; cbn [split_on]; [reflexivity|].
  destruct (Ascii.eqb ch sep) eqn:E.
  - apply Ascii.eqb_eq in E. subst ch.
    destruct (split_on_cons sep s) as (p & ps & Hs). rewrite Hs in IH |- *.
    change (join (String sep EmptyString) (EmptyString :: p :: ps))
      with (String sep (join (String sep EmptyString) (p :: ps))).
    now rewrite IH.
  - destruct (split_on_cons sep s) as (p & ps & Hs). rewrite Hs in IH |- *.
    destruct ps as [|q qs]; cbn [join String.append] in IH |- *;
      now rewrite IH.
Qed.

(** X20.  For a file name that ends in a dot and an extension, the download
    is named after everything before that last dot, dots included,
    followed by [-waveform.webm], with or without the transparent
    background. *)
Theorem download_name_replaces_the_last_extension (base ext : string)
  (isTransparent : bool) :
  contains "."%char ext = false ->
  download_name (base ++ "." ++ ext) isTransparent
  = (base ++ "-waveform.webm")%string.
Proof.
  intros Hext. unfold download_name.
  cbn [String.append]. rewrite split_on_app, (split_on_absent _ _ Hext).
  rewrite removelast_last, join_split_on.
  destruct isTransparent; reflexivity.
Qed.

(** X21.  A file name without a dot loses its whole name: the download is
    called [-waveform.webm]. *)
Theorem download_name_of_a_name_without_dot (fileName : string)
  (isTransparent : bool) :
  contains "."%char fileName = false ->
  download_name fileName isTransparent = "-waveform.webm"%string.
Proof.
  intros Hname. unfold download_name.
  rewrite (split_on_absent _ _ Hname).
  destruct isTransparent; reflexivity.
Qed.

Lemma download_name_replaces_the_last_extension_witness :
  download_name "my.song.mp3" true = "my.song-waveform.webm"%string.
Proof.
  apply (@download_name_replaces_the_last_extension "my.song" "mp3" true).
  reflexivity.
Defined.

Lemma download_name_of_a_name_without_dot_witness :
  download_name "recording" false = "-waveform.webm"%string.
Proof.
  apply (@download_name_of_a_name_without_dot "recording" false).
  reflexivity.
Defined.
